(** * Order ingestion pipeline: identifier codec, store gateway, retry
      classifier and per-message handler

    A shallow embedding of [src/db.mjs] and [src/consumer.mjs].

    - JavaScript strings are [string]s; a character is a code unit below 256.
      Lower-casing touches [A]-[Z] only: no code unit outside ASCII lower-cases
      to one of [0-9a-f], so the identifier test is not affected.
    - A [Buffer] is a [list byte].
    - A call that may throw returns a [completion]. *)

From Stdlib Require Import ZArith NArith List String Ascii Bool Lia.
From Stdlib.Strings Require Import Byte.
From stdpp Require Import gmap strings list fin_maps.
From Stdlib Require Import Sorted.

(** ** JavaScript values, errors and completions *)

Module JS.

#[local] Set Warnings "-register-all".

(** The values [JSON.parse] can produce, and [undefined].  A number is the
    bit pattern of its IEEE-754 double; an object keeps its members in
    source order. *)
Inductive value : Type :=
| JUndefined
| JNull
| JBool (b : bool)
| JNum (bits : Z)
| JStr (s : string)
| JArr (items : list value)
| JObj (members : list (string * value)).

(** What the modelled code can throw. *)
Inductive error : Type :=
| SyntaxError                                      (* JSON.parse *)
| TypeError                                        (* member read on null, call of a non-function *)
| InvalidUUID (uuid : string)                      (* new Error(`Invalid UUID: ${uuid}`) *)
| StoreError (code : option string) (errno : option Z)   (* rejection of pool.query *)
| AbortError (originalError : error).              (* new pRetry.AbortError(err) *)

Inductive completion (A : Type) : Type :=
| Returns (a : A)
| Throws (e : error).
Arguments Returns {A} a.
Arguments Throws {A} e.

(** [err?.code] and [err?.errno]: only driver errors carry them. *)
Definition code (e : error) : option string :=
  match e with StoreError c _ => c | _ => None end.

Definition errno (e : error) : option Z :=
  match e with StoreError _ n => n | _ => None end.

(** A double is NaN when its exponent is all ones and its fraction is not 0. *)
Definition is_NaN (bits : Z) : bool :=
  (Z.land (Z.shiftr bits 52) 2047 =? 2047)%Z
  && negb (Z.land bits (Z.ones 52) =? 0)%Z.

(** +0 and -0: everything but the sign bit is clear. *)
Definition is_zero (bits : Z) : bool :=
  (Z.land bits (Z.ones 63) =? 0)%Z.

(** [!!v] *)
Definition ToBoolean (v : value) : bool :=
  match v with
  | JUndefined | JNull => false
  | JBool b => b
  | JNum bits => negb (is_zero bits || is_NaN bits)
  | JStr s => negb (String.eqb s EmptyString)
  | JArr _ | JObj _ => true
  end.

(** [a ?? b] *)
Definition nullish_or (a b : value) : value :=
  match a with
  | JUndefined | JNull => b
  | _ => a
  end.

(** The member of a parsed object: the last occurrence of the key wins. *)
Definition member (k : string) (ms : list (string * value)) : value :=
  match find (fun kv => String.eqb k (fst kv)) (rev ms) with
  | Some kv => snd kv
  | None => JUndefined
  end.

(** [v.k] for the member names the handler reads ([orderId], [partnerId],
    [status], [totalAmount], [currency], [isDeleted]); no built-in prototype
    defines any of them, so only an object's own members answer. *)
Definition get (v : value) (k : string) : completion value :=
  match v with
  | JUndefined | JNull => Throws TypeError
  | JObj ms => Returns (member k ms)
  | _ => Returns JUndefined
  end.

End JS.
Export JS.

(** ** Identifier codec ([parse] and [stringify] of db.mjs) *)

Module Codec.

Definition Buffer := list byte.

(** [[0-9a-f]] *)
Definition is_hex_lower (c : ascii) : bool :=
  let n := N_of_ascii c in
  ((48 <=? n) && (n <=? 57) || (97 <=? n) && (n <=? 102))%N.

Definition lower (c : ascii) : ascii :=
  let n := N_of_ascii c in
  if ((65 <=? n) && (n <=? 90))%N then ascii_of_N (n + 32) else c.

(** [s.toLowerCase()] *)
Fixpoint toLowerCase (s : string) : string :=
  match s with
  | EmptyString => EmptyString
  | String c rest => String (lower c) (toLowerCase rest)
  end.

(** [s.replace(/-/g, '')] *)
Fixpoint remove_hyphens (s : string) : string :=
  match s with
  | EmptyString => EmptyString
  | String c rest =>
      if Ascii.eqb c "-" then remove_hyphens rest
      else String c (remove_hyphens rest)
  end.

Fixpoint all_chars (p : ascii -> bool) (s : string) : bool :=
  match s with
  | EmptyString => true
  | String c rest => p c && all_chars p rest
  end.

(** [/^[0-9a-f]{32}$/.test(hex)] *)
Definition test_hex32 (hex : string) : bool :=
  (String.length hex =? 32)%nat && all_chars is_hex_lower hex.

(** The value of a hex digit, either case. *)
Definition hex_value (c : ascii) : option N :=
  let n := N_of_ascii c in
  if ((48 <=? n) && (n <=? 57))%N then Some (n - 48)%N
  else if ((97 <=? n) && (n <=? 102))%N then Some (n - 87)%N
  else if ((65 <=? n) && (n <=? 70))%N then Some (n - 55)%N
  else None.

Definition byte_of_nibbles (hi lo : N) : byte :=
  byte_of_ascii (ascii_of_N (16 * hi + lo)).

(** [Buffer.from(hex, 'hex')]: one byte per pair of digits, stopping at the
    first pair that is not two hex digits. *)
Fixpoint Buffer_from_hex (hex : string) : Buffer :=
  match hex with
  | String a (String b rest) =>
      match hex_value a, hex_value b with
      | Some hi, Some lo => byte_of_nibbles hi lo :: Buffer_from_hex rest
      | _, _ => []
      end
  | _ => []
  end.

Definition hex_digit (n : N) : ascii :=
  if (n <? 10)%N then ascii_of_N (48 + n) else ascii_of_N (87 + n).

(** [buf.toString('hex')] *)
Fixpoint Buffer_toString_hex (buf : Buffer) : string :=
  match buf with
  | [] => EmptyString
  | b :: rest =>
      String (hex_digit (Byte.to_N b / 16))
        (String (hex_digit (Byte.to_N b mod 16)) (Buffer_toString_hex rest))
  end.

Fixpoint take_chars (n : nat) (s : string) : string :=
  match n, s with
  | S n', String c rest => String c (take_chars n' rest)
  | _, _ => EmptyString
  end.

Fixpoint drop_chars (n : nat) (s : string) : string :=
  match n, s with
  | S n', String _ rest => drop_chars n' rest
  | _, _ => s
  end.

(** [s.slice(from, to)] and [s.slice(from)] for indices that are not
    negative; both clamp at the end of the string. *)
Definition slice (from to : nat) (s : string) : string :=
  take_chars (to - from) (drop_chars from s).

Definition slice_from (from : nat) (s : string) : string := drop_chars from s.

(** db.mjs, [parse] *)
Definition parse (uuid : string) : completion Buffer :=
  let hex := toLowerCase (remove_hyphens uuid) in
  if negb (test_hex32 hex) then Throws (InvalidUUID uuid)
  else Returns (Buffer_from_hex hex).

(** db.mjs, [stringify] *)
Definition stringify (buf : Buffer) : string :=
  let hex := Buffer_toString_hex buf in
  slice 0 8 hex +:+ "-" +:+
  slice 8 12 hex +:+ "-" +:+
  slice 12 16 hex +:+ "-" +:+
  slice 16 20 hex +:+ "-" +:+
  slice_from 20 hex.

(** [uuid] is passed as received: a value that is not a string has no
    callable [replace], and reading it on [undefined] or [null] throws. *)
Definition parse_value (uuid : value) : completion Buffer :=
  match uuid with
  | JStr s => parse s
  | _ => Throws TypeError
  end.

(** The external form of an identifier, as the claims name it: 8-4-4-4-12
    hex digits of either case, 36 characters. *)
Definition is_hex_digit (c : ascii) : bool := is_hex_lower (lower c).

Definition canonical_uuid (s : string) : bool :=
  (String.length s =? 36)%nat
  && all_chars is_hex_digit (slice 0 8 s)
  && String.eqb (slice 8 9 s) "-"
  && all_chars is_hex_digit (slice 9 13 s)
  && String.eqb (slice 13 14 s) "-"
  && all_chars is_hex_digit (slice 14 18 s)
  && String.eqb (slice 18 19 s) "-"
  && all_chars is_hex_digit (slice 19 23 s)
  && String.eqb (slice 23 24 s) "-"
  && all_chars is_hex_digit (slice 24 36 s).

(** "Exactly 32 hexadecimal characters", as the claims word the test on
    the lower-cased input. *)
Definition hex_alphabet : list ascii := list_ascii_of_string "0123456789abcdef".

Definition is_32_hex (h : string) : Prop :=
  String.length h = 32%nat /\
  forall c, In c (list_ascii_of_string h) -> In c hex_alphabet.

End Codec.
Export Codec.

(** ** The store and the effects of the gateway *)

Module Row.
(** A row of [orders_ops] less its key [order_id]. *)
Record t := mk {
  partner_id : value;
  status : value;
  total_amount : value;
  currency : value;
  is_deleted : Z;
  created_ts : Z;
  updated_ts : Z;
}.
End Row.

Module Order.
(** The argument of [upsertOrder]; a member that is missing is [JUndefined]. *)
Record t := mk {
  orderId : value;
  partnerId : value;
  status : value;
  totalAmount : value;
  currency : value;
  isDeleted : value;
}.
End Order.

Module OrderRecord.
(** The object [getOrderById] and [listByPartner] build from a row. *)
Record t := mk {
  orderId : string;
  partnerId : value;
  status : value;
  totalAmount : value;
  currency : value;
  createdTs : Z;
  updatedTs : Z;
  isDeleted : bool;
}.
End OrderRecord.

Module Column.
(** The columns of [orders_ops] that keep a value bound by the caller. *)
Inductive t : Type := partner_id | status | total_amount | currency.
End Column.

Module Effects.

#[global] Instance byte_eq_dec : EqDecision byte := Byte.byte_eq_dec.
#[global] Instance byte_countable : Countable byte :=
  inj_countable Byte.to_N Byte.of_N Byte.of_to_N.

(** What a statement meets when it reaches the pool: the time of the
    store's clock (milliseconds) and, when the statement is rejected, the
    error the driver rejects with. *)
Record circumstances := {
  at_time : Z;
  fault : option error;
}.

Inductive event : Type :=
| Attempt (attemptNumber : nat)                       (* pRetry calls its input *)
| Warned (attemptNumber retriesLeft : nat) (e : error) (* console.warn of onFailedAttempt *)
| Slept (ms : Z).                                     (* the wait before the next attempt *)

(** The table, the number of statements sent so far, and what the handler
    has done, oldest first. *)
Record world := {
  orders_ops : gmap Buffer Row.t;
  issued : nat;
  trace : list event;
}.

Definition with_table (t : gmap Buffer Row.t) (w : world) : world :=
  {| orders_ops := t; issued := issued w; trace := trace w |}.

Definition sent (w : world) : world :=
  {| orders_ops := orders_ops w; issued := S (issued w); trace := trace w |}.

Definition record (ev : event) (w : world) : world :=
  {| orders_ops := orders_ops w; issued := issued w; trace := trace w ++ [ev] |}.

(** An [async] function: it reads and writes the world and either returns
    or throws. *)
Definition M (A : Type) : Type := world -> completion A * world.

Definition ret {A} (a : A) : M A := fun w => (Returns a, w).

Definition throw {A} (e : error) : M A := fun w => (Throws e, w).

Definition lift {A} (c : completion A) : M A := fun w => (c, w).

Definition bind {A B} (m : M A) (k : A -> M B) : M B :=
  fun w =>
    match m w with
    | (Returns a, w') => k a w'
    | (Throws e, w') => (Throws e, w')
    end.

(** [try { m } catch (err) { h err }] *)
Definition try_catch {A} (m : M A) (h : error -> M A) : M A :=
  fun w =>
    match m w with
    | (Throws e, w') => h e w'
    | done => done
    end.

End Effects.
Export Effects.

Declare Scope js_scope.
Delimit Scope js_scope with js.
Notation "x <- m ;; k" := (bind m (fun x => k))
  (at level 100, m at next level, right associativity) : js_scope.

(** ** Store gateway (db.mjs) *)

Module Gateway.

Inductive write_result : Type := Inserted | Updated.

(** [ORDER BY created_ts DESC]; rows of equal [created_ts] come in the order
    the engine finds them. *)
Fixpoint insert_desc (x : Buffer * Row.t) (l : list (Buffer * Row.t)) :
  list (Buffer * Row.t) :=
  match l with
  | [] => [x]
  | y :: rest =>
      if (Row.created_ts (snd y) <=? Row.created_ts (snd x))%Z then x :: l
      else y :: insert_desc x rest
  end.

Definition order_by_created_ts_desc (l : list (Buffer * Row.t)) :
  list (Buffer * Row.t) :=
  foldr insert_desc [] l.

(** [!!r.is_deleted] *)
Definition truthy (n : Z) : bool := negb (n =? 0)%Z.

(** The object literal both readers build from a row. *)
Definition normalize (r : Buffer * Row.t) : OrderRecord.t :=
  {| OrderRecord.orderId := stringify (fst r);
     OrderRecord.partnerId := Row.partner_id (snd r);
     OrderRecord.status := Row.status (snd r);
     OrderRecord.totalAmount := Row.total_amount (snd r);
     OrderRecord.currency := Row.currency (snd r);
     OrderRecord.createdTs := Row.created_ts (snd r);
     OrderRecord.updatedTs := Row.updated_ts (snd r);
     OrderRecord.isDeleted := truthy (Row.is_deleted (snd r)) |}.

(** [currency = 'USD'], [isDeleted = false]: a default applies to a member
    that is [undefined]. *)
Definition default (v d : value) : value :=
  match v with
  | JUndefined => d
  | _ => v
  end.

Section WithStore.

(** The [n]-th statement sent to the pool meets [env n]. *)
Variable env : nat -> circumstances.

(** What a column keeps of a bound value, and how [partner_id = ?]
    compares a kept value with a bound one: both are fixed by the
    table's declaration, which is not part of the sources. *)
Variable kept : Column.t -> value -> value.
Variable sql_eq : value -> value -> bool.

(** [await getPool().query(sql, params)].  A rejected statement leaves
    the table as it was. *)
Definition query {A} (statement : Z -> gmap Buffer Row.t -> A * gmap Buffer Row.t) :
  M A :=
  fun w =>
    let met := env (issued w) in
    match fault met with
    | Some e => (Throws e, sent w)
    | None =>
        let (a, t) := statement (at_time met) (orders_ops w) in
        (Returns a, with_table t (sent w))
    end.

(** Modelled from the spec: the declaration of [orders_ops] is not in the
    sources.  [order_id] is the primary key, [created_ts] is set on insert
    only, and [updated_ts] is set to the time of every write.

    The statement is the one of [upsertOrder]: INSERT ... ON DUPLICATE KEY
    UPDATE of the five listed columns and of [updated_ts]. *)
Definition insert_on_duplicate_key_update
  (order_id : Buffer) (p s a c : value) (d : Z)
  (now : Z) (t : gmap Buffer Row.t) : write_result * gmap Buffer Row.t :=
  let written created :=
    {| Row.partner_id := kept Column.partner_id p;
       Row.status := kept Column.status s;
       Row.total_amount := kept Column.total_amount a;
       Row.currency := kept Column.currency c;
       Row.is_deleted := d;
       Row.created_ts := created;
       Row.updated_ts := now |} in
  match t !! order_id with
  | None => (Inserted, <[order_id := written now]> t)
  | Some old => (Updated, <[order_id := written (Row.created_ts old)]> t)
  end.

(** SELECT ... WHERE order_id = ? *)
Definition select_by_order_id (order_id : Buffer)
  (now : Z) (t : gmap Buffer Row.t) : list (Buffer * Row.t) * gmap Buffer Row.t :=
  (match t !! order_id with
   | Some r => [(order_id, r)]
   | None => []
   end, t).

(** SELECT ... WHERE partner_id = ? ORDER BY created_ts DESC *)
Definition select_by_partner_id (p : value)
  (now : Z) (t : gmap Buffer Row.t) : list (Buffer * Row.t) * gmap Buffer Row.t :=
  (order_by_created_ts_desc
     (filter (fun kr => sql_eq (Row.partner_id (snd kr)) p = true) (map_to_list t)),
   t).

(** db.mjs, [upsertOrder].  The parameters are evaluated before the
    statement is sent, [parse(orderId)] first. *)
Definition upsertOrder (order : Order.t) : M write_result :=
  (let currency := default (Order.currency order) (JStr "USD") in
   let isDeleted := default (Order.isDeleted order) (JBool false) in
   order_id <- lift (parse_value (Order.orderId order)) ;;
   res <- query (insert_on_duplicate_key_update
                   order_id
                   (Order.partnerId order)
                   (Order.status order)
                   (Order.totalAmount order)
                   currency
                   (if ToBoolean isDeleted then 1 else 0)%Z) ;;
   ret res)%js.

(** db.mjs, [getOrderById]; [None] is [null]. *)
Definition getOrderById (orderId : value) : M (option OrderRecord.t) :=
  (order_id <- lift (parse_value orderId) ;;
   rows <- query (select_by_order_id order_id) ;;
   match rows with
   | [] => ret None
   | r :: _ => ret (Some (normalize r))
   end)%js.

(** db.mjs, [listByPartner] *)
Definition listByPartner (partnerId : value) : M (list OrderRecord.t) :=
  (rows <- query (select_by_partner_id partnerId) ;;
   ret (map normalize rows))%js.

End WithStore.

End Gateway.
Export Gateway.

(** ** Retry classifier and backoff (consumer.mjs, p-retry) *)

Module Retry.

Definition retryableCodes : gset string :=
  {[ "PROTOCOL_CONNECTION_LOST"; "ECONNREFUSED"; "ETIMEDOUT"; "EPIPE";
     "ECONNRESET"; "PROTOCOL_ENQUEUE_AFTER_FATAL_ERROR" ]}.

(** MySQL errno: 1205 lock wait timeout, 1213 deadlock *)
Definition retryableErrnos : gset Z := {[ 1205%Z; 1213%Z ]}.

(** [set.has(x)], where [x] may be [undefined] *)
Definition has `{Countable A} (set : gset A) (x : option A) : bool :=
  match x with
  | Some a => bool_decide (a ∈ set)
  | None => false
  end.

(** consumer.mjs, [isRetryable] *)
Definition isRetryable (err : error) : bool :=
  has retryableCodes (code err) || has retryableErrnos (errno err).

(** The two classes of the claims, and the causes they call transient. *)
Inductive classification : Type := Retryable | Permanent.

Definition classify (e : error) : classification :=
  if isRetryable e then Retryable else Permanent.

Inductive transient_cause : Type :=
| ConnectionLoss | ConnectionRefused | Timeout | BrokenPipe | ConnectionReset
| EnqueueAfterFatalDisconnect | LockWaitTimeout | Deadlock.

Definition has_cause (e : error) (c : transient_cause) : Prop :=
  match c with
  | ConnectionLoss => code e = Some "PROTOCOL_CONNECTION_LOST"
  | ConnectionRefused => code e = Some "ECONNREFUSED"
  | Timeout => code e = Some "ETIMEDOUT"
  | BrokenPipe => code e = Some "EPIPE"
  | ConnectionReset => code e = Some "ECONNRESET"
  | EnqueueAfterFatalDisconnect => code e = Some "PROTOCOL_ENQUEUE_AFTER_FATAL_ERROR"
  | LockWaitTimeout => errno e = Some 1205%Z
  | Deadlock => errno e = Some 1213%Z
  end.

(** The options the handler passes to [pRetry]; times are milliseconds. *)
Record options := {
  retries : nat;
  factor : Z;
  minTimeout : Z;
  maxTimeout : Z;
  randomize : bool;
}.

(** Modelled from the spec: p-retry is a dependency, not part of the sources.
    The wait before retry [k] (from 0) is the least wait times the factor to
    the power [k], at most the greatest wait; with [randomize: false] no
    random factor enters. *)
Definition createTimeout (o : options) (k : nat) : Z :=
  Z.min (Z.max (minTimeout o) 1 * factor o ^ Z.of_nat k) (maxTimeout o).

Definition timeouts (o : options) : list Z :=
  map (createTimeout o) (seq 0 (retries o)).

(** Modelled from the spec: p-retry is a dependency, not part of the sources.
    The executor calls [input] with the attempt number, from 1.  When it
    returns, so does the executor.  When it throws an [AbortError] the
    executor stops at once and rejects with the wrapped error.  Any other
    error is handed to [onFailedAttempt] with the attempt number and the
    retries left; then the executor waits and tries again, or, when no retry
    is left, rejects with the error. *)
Fixpoint attempts (input : nat -> M unit)
  (onFailedAttempt : error -> nat -> nat -> world -> world)
  (attemptNumber : nat) (waits : list Z) : M unit :=
  fun w =>
    match input attemptNumber (record (Attempt attemptNumber) w) with
    | (Returns a, w') => (Returns a, w')
    | (Throws (AbortError originalError), w') => (Throws originalError, w')
    | (Throws e, w') =>
        let w'' := onFailedAttempt e attemptNumber (length waits) w' in
        match waits with
        | [] => (Throws e, w'')
        | wait :: rest =>
            attempts input onFailedAttempt (S attemptNumber) rest (record (Slept wait) w'')
        end
    end.

Definition pRetry (input : nat -> M unit) (o : options)
  (onFailedAttempt : error -> nat -> nat -> world -> world) : M unit :=
  attempts input onFailedAttempt 1 (timeouts o).

End Retry.
Export Retry.

(** ** Ingestion loop (consumer.mjs, [eachMessage]) *)

Module Consumer.

(** The object literal of lines 43-50. *)
Definition order_of (payload : value) : completion Order.t :=
  match get payload "orderId" with Throws e => Throws e | Returns orderId =>
  match get payload "partnerId" with Throws e => Throws e | Returns partnerId =>
  match get payload "status" with Throws e => Throws e | Returns status =>
  match get payload "totalAmount" with Throws e => Throws e | Returns totalAmount =>
  match get payload "currency" with Throws e => Throws e | Returns currency =>
  match get payload "isDeleted" with Throws e => Throws e | Returns isDeleted =>
    Returns {| Order.orderId := orderId;
               Order.partnerId := partnerId;
               Order.status := status;
               Order.totalAmount := totalAmount;
               Order.currency := nullish_or currency (JStr "USD");
               Order.isDeleted := JBool (ToBoolean isDeleted) |}
  end end end end end end.

(** two retries with ~2s then ~4s waits *)
Definition retry_options : options :=
  {| retries := 2; factor := 2; minTimeout := 2000; maxTimeout := 5000;
     randomize := false |}.

(** [onFailedAttempt]: one [console.warn] *)
Definition onFailedAttempt (e : error) (attemptNumber retriesLeft : nat) (w : world) :
  world :=
  record (Warned attemptNumber retriesLeft e) w.

Section WithStore.

Variable env : nat -> circumstances.
Variable kept : Column.t -> value -> value.

(** The function handed to [pRetry]. *)
Definition apply_once (order : Order.t) (attemptNumber : nat) : M unit :=
  try_catch
    (_ <- upsertOrder env kept order ;; ret tt)%js
    (fun err =>
       if negb (isRetryable err) then throw (AbortError err)  (* no retry on non-transient errors *)
       else throw err).                                        (* if retryable then backoff *)

(** The handler of one message.  [parsed] is what
    [JSON.parse(message.value.toString('utf8'))] does on the message:
    it returns the payload or throws. *)
Definition eachMessage (parsed : completion value) : M unit :=
  (payload <- lift parsed ;;
   order <- lift (order_of payload) ;;
   pRetry (apply_once order) retry_options onFailedAttempt)%js.

End WithStore.

(** kafkajs commits the offset of a message after its handler returns
    (line 78); a handler that throws leaves the offset where it was. *)
Definition offset_committed (handled : completion unit) : bool :=
  match handled with
  | Returns _ => true
  | Throws _ => false
  end.

(** What the claims call a payload that fails to decode: the text does not
    parse, the payload has no members to read, or its [orderId] is not an
    identifier [parse] accepts. *)
Definition decode_fails (parsed : completion value) : bool :=
  match parsed with
  | Throws _ => true
  | Returns payload =>
      match order_of payload with
      | Throws _ => true
      | Returns order =>
          match parse_value (Order.orderId order) with
          | Throws _ => true
          | Returns _ => false
          end
      end
  end.

(** How often the executor called its input, and how long it waited. *)
Definition count_attempts (tr : list event) : nat :=
  length (omap (fun ev => match ev with Attempt n => Some n | _ => None end) tr).

Definition waits (tr : list event) : list Z :=
  omap (fun ev => match ev with Slept ms => Some ms | _ => None end) tr.

End Consumer.
Export Consumer.

(** ** Sample messages and stores *)

Module Samples.

(** The payload of the message
    [{"orderId":"123e4567-e89b-12d3-a456-426614174000","partnerId":"p-1001",
      "status":"PLACED","totalAmount":25.99,"currency":"USD","isDeleted":false}] *)
Definition placed : value :=
  JObj [("orderId", JStr "123e4567-e89b-12d3-a456-426614174000");
        ("partnerId", JStr "p-1001");
        ("status", JStr "PLACED");
        ("totalAmount", JNum 0x4039fd70a3d70a3d);
        ("currency", JStr "USD");
        ("isDeleted", JBool false)].

Definition placed_order : Order.t :=
  {| Order.orderId := JStr "123e4567-e89b-12d3-a456-426614174000";
     Order.partnerId := JStr "p-1001";
     Order.status := JStr "PLACED";
     Order.totalAmount := JNum 0x4039fd70a3d70a3d;
     Order.currency := JStr "USD";
     Order.isDeleted := JBool false |}.

(** The same order, captured; its identifier is written in upper case. *)
Definition captured : Order.t :=
  {| Order.orderId := JStr "123E4567-E89B-12D3-A456-426614174000";
     Order.partnerId := JStr "p-1001";
     Order.status := JStr "CAPTURED";
     Order.totalAmount := JNum 0x4039fd70a3d70a3d;
     Order.currency := JUndefined;
     Order.isDeleted := JUndefined |}.

(** The payload of the message [{"orderId":"not-a-uuid","partnerId":"p-1001"}] *)
Definition misnamed : value :=
  JObj [("orderId", JStr "not-a-uuid"); ("partnerId", JStr "p-1001")].

Definition empty_store : world := {| orders_ops := ∅; issued := 0; trace := [] |}.

Definition access_denied : error :=
  StoreError (Some "ER_ACCESS_DENIED_ERROR") (Some 1045%Z).

Definition connection_refused : error :=
  StoreError (Some "ECONNREFUSED") (Some (-111)%Z).

(** A store whose clock ticks once per statement and which meets every
    statement the same way. *)
Definition always (f : option error) : nat -> circumstances :=
  fun n => {| at_time := 1700000000000 + Z.of_nat n; fault := f |}.

Definition refused_then_denied : nat -> circumstances :=
  fun n =>
    {| at_time := 1700000000000 + Z.of_nat n;
       fault := Some (match n with O => connection_refused | _ => access_denied end) |}.

Definition kept_as_bound : Column.t -> value -> value := fun _ v => v.

Definition same_string (a b : value) : bool :=
  match a, b with
  | JStr x, JStr y => String.eqb x y
  | _, _ => false
  end.

End Samples.

(** ** Auxiliary definitions for the facts about the store and the handler *)

(** The row the statement of [upsertOrder] writes for [order] at time [now]
    over the row [old] of the same key, if any. *)
Definition written_row (kept : Column.t -> value -> value)
  (order : Order.t) (now : Z) (old : option Row.t) : Row.t :=
  {| Row.partner_id := kept Column.partner_id (Order.partnerId order);
     Row.status := kept Column.status (Order.status order);
     Row.total_amount := kept Column.total_amount (Order.totalAmount order);
     Row.currency :=
       kept Column.currency (default (Order.currency order) (JStr "USD"));
     Row.is_deleted :=
       if ToBoolean (default (Order.isDeleted order) (JBool false)) then 1%Z else 0%Z;
     Row.created_ts :=
       match old with
       | None => now
       | Some r => Row.created_ts r
       end;
     Row.updated_ts := now |}.

(** What a run of the executor over [apply_once] leaves behind: the table as
    it was when the run throws, one written row when it returns. *)
Definition outcome_of (env : nat -> circumstances) (kept : Column.t -> value -> value)
  (order : Order.t) (ws : list Z) (w : world) (r : completion unit * world) : Prop :=
  match fst r with
  | Throws _ => orders_ops (snd r) = orders_ops w
  | Returns _ =>
      exists k j,
        parse_value (Order.orderId order) = Returns k /\
        (j <= length ws)%nat /\
        fault (env (issued w + j)) = None /\
        orders_ops (snd r)
        = <[k := written_row kept order (at_time (env (issued w + j)))
                   (orders_ops w !! k)]> (orders_ops w) /\
        issued (snd r) = (issued w + j + 1)%nat
  end.

(** A store that refuses the first [down_for] statements and executes the
    rest. *)
Definition outage (down_for : nat) : nat -> circumstances :=
  fun n =>
    {| at_time := 1700000000000 + 1000 * Z.of_nat n;
       fault := if (n <? down_for)%nat then Some Samples.connection_refused else None |}.

(** Every key of the table is a 16-byte buffer. *)
Definition keys_are_16_bytes (t : gmap Buffer Row.t) : Prop :=
  forall k r, t !! k = Some r -> length k = 16%nat.

(** [ORDER BY created_ts DESC] on rows and on the records built from them. *)
Definition newer_first (a b : Buffer * Row.t) : Prop :=
  (Row.created_ts (snd b) <= Row.created_ts (snd a))%Z.

Definition newer_record_first (a b : OrderRecord.t) : Prop :=
  (OrderRecord.createdTs b <= OrderRecord.createdTs a)%Z.

(** A second order of the same partner. *)
Definition other_order : Order.t :=
  {| Order.orderId := JStr "00000000-0000-4000-8000-000000000001";
     Order.partnerId := JStr "p-1001";
     Order.status := JStr "CANCELLED";
     Order.totalAmount := JNum 0x4024000000000000;
     Order.currency := JStr "EUR";
     Order.isDeleted := JBool true |}.

(** The store after [Samples.placed_order] and then [other_order] were applied. *)
Definition two_orders : world :=
  snd (upsertOrder (Samples.always None) Samples.kept_as_bound other_order
         (snd (upsertOrder (Samples.always None) Samples.kept_as_bound
                 Samples.placed_order Samples.empty_store))).

(** ** The connection pool (db.mjs, [getPool]) *)

Module Pool.

(** The options handed to [mysql.createPool]. *)
Record options := {
  host : value;
  user : value;
  password : value;
  database : value;
  port : value;
  waitForConnections : bool;
  connectionLimit : Z;
}.

(** [process.env.NAME || fallback]: a variable that is unset or empty gives
    the fallback. *)
Definition env_or (process_env : gmap string string) (name : string) (fallback : value) :
  value :=
  match process_env !! name with
  | Some s => if String.eqb s EmptyString then fallback else JStr s
  | None => fallback
  end.

Definition createPool_options (process_env : gmap string string) : options :=
  {| host := env_or process_env "DB_HOST" (JStr "127.0.0.1");
     user := env_or process_env "DB_USER" (JStr "app");
     password := env_or process_env "DB_PASSWORD" (JStr "app");
     database := env_or process_env "DB_NAME" (JStr "ops");
     port := env_or process_env "PORT" (JNum 0x40a9da0000000000);  (* 3309 *)
     waitForConnections := true;
     connectionLimit := 5 |}.

(** db.mjs, [getPool]: the module variable [pool] is [None] while it is
    [null]; the result is the pool and the new value of the variable. *)
Definition getPool (process_env : gmap string string) (pool : option options) :
  options * option options :=
  match pool with
  | None =>
      let created := createPool_options process_env in
      (created, Some created)
  | Some p => (p, pool)
  end.

(** One call of [getPool] per environment of the list, in order: the pools
    returned and the variable at the end. *)
Fixpoint getPool_each (envs : list (gmap string string)) (pool : option options) :
  list options * option options :=
  match envs with
  | [] => ([], pool)
  | e :: rest =>
      let (p, pool') := getPool e pool in
      let (ps, final) := getPool_each rest pool' in
      (p :: ps, final)
  end.

End Pool.

(** ** Kafka clients (producer.mjs, consumer.mjs) *)

Module Kafka.

(** A consumer made by [kafka.consumer]. *)
Record handle := {
  group : string;
  connected : bool;
  subscriptions : list string;
  running : bool;
}.

(** The calls the code makes on kafkajs clients. *)
Inductive call : Type :=
| AdminConnect
| ListTopics
| CreateTopics (topic : string) (numPartitions replicationFactor : Z)
| AdminDisconnect
| ProducerConnect
| Send (topic : string) (key : value) (text : string)
| ProducerDisconnect
| ConsumerConnect (c : nat)
| Subscribe (c : nat) (topic : string) (fromBeginning : bool)
| Run (c : nat)
| Stop (c : nat)
| ConsumerDisconnect (c : nat).

Inductive line : Type :=
| Log (text : string)                      (* console.log *)
| Error (text : string) (err : error).     (* console.error *)

(** The broker's topics and messages (oldest first), the consumers made so
    far, the module variable [consumer] of consumer.mjs ([None] while it is
    unset or [null]), the calls made so far and the console. *)
Record cluster := {
  topics : gset string;
  messages : list (string * value * string);
  consumers : list handle;
  consumer : option nat;
  calls : list call;
  console : list line;
}.

Definition K (A : Type) : Type := cluster -> completion A * cluster.

Definition kret {A} (a : A) : K A := fun c => (Returns a, c).

Definition klift {A} (r : completion A) : K A := fun c => (r, c).

Definition kbind {A B} (m : K A) (k : A -> K B) : K B :=
  fun c =>
    match m c with
    | (Returns a, c') => k a c'
    | (Throws e, c') => (Throws e, c')
    end.

(** [try { m } catch (err) { h err }] *)
Definition ktry {A} (m : K A) (h : error -> K A) : K A :=
  fun c =>
    match m c with
    | (Throws e, c') => h e c'
    | done => done
    end.

Definition called (what : call) (c : cluster) : cluster :=
  {| topics := topics c; messages := messages c; consumers := consumers c;
     consumer := consumer c; calls := calls c ++ [what]; console := console c |}.

Definition printed (l : line) (c : cluster) : cluster :=
  {| topics := topics c; messages := messages c; consumers := consumers c;
     consumer := consumer c; calls := calls c; console := console c ++ [l] |}.

Definition with_topic (topic : string) (c : cluster) : cluster :=
  {| topics := {[topic]} ∪ topics c; messages := messages c;
     consumers := consumers c; consumer := consumer c; calls := calls c;
     console := console c |}.

Definition with_message (m : string * value * string) (c : cluster) : cluster :=
  {| topics := topics c; messages := messages c ++ [m]; consumers := consumers c;
     consumer := consumer c; calls := calls c; console := console c |}.

Definition with_consumers (hs : list handle) (c : cluster) : cluster :=
  {| topics := topics c; messages := messages c; consumers := hs;
     consumer := consumer c; calls := calls c; console := console c |}.

Definition with_consumer (v : option nat) (c : cluster) : cluster :=
  {| topics := topics c; messages := messages c; consumers := consumers c;
     consumer := v; calls := calls c; console := console c |}.

Definition on_handle (i : nat) (f : handle -> handle) (c : cluster) : cluster :=
  with_consumers (alter f i (consumers c)) c.

(** [`Topic "${topic}" is ready`] *)
Definition ready (topic : string) : string :=
  let quote := String (ascii_of_N 34) EmptyString in
  "Topic " +:+ quote +:+ topic +:+ quote +:+ " is ready".

Section WithNetwork.

(** The [n]-th call on a client is rejected with [net n] when that is an
    error, and carried out otherwise.  A rejected call changes nothing. *)
Variable net : nat -> option error.

(** [JSON.stringify] *)
Variable JSON_stringify : value -> string.

(** [process.env.KAFKA_TOPIC || 'orders.transformed'] and
    [process.env.KAFKA_GROUP_ID || 'write-lambda-e2e'] *)
Variable topic : string.
Variable groupId : string.

Definition request {A} (what : call) (answer : cluster -> A * cluster) : K A :=
  fun c =>
    let c1 := called what c in
    match net (length (calls c)) with
    | Some e => (Throws e, c1)
    | None => let (a, c2) := answer c1 in (Returns a, c2)
    end.

Definition done_by (effect : cluster -> cluster) (c : cluster) : unit * cluster :=
  (tt, effect c).

(** producer.mjs, [createTopicIfMissing] *)
Definition createTopicIfMissing : K unit :=
  ktry
    (kbind (request AdminConnect (done_by id)) (fun _ =>
     kbind (request ListTopics (fun c => (topics c, c))) (fun topics =>
     kbind (if negb (bool_decide (topic ∈ topics))
            then request (CreateTopics topic 1 1) (done_by (with_topic topic))
            else kret tt) (fun _ =>
     kbind (request AdminDisconnect (done_by id)) (fun _ =>
     fun c => (Returns tt, printed (Log (ready topic)) c))))))
    (fun err c => (Returns tt, printed (Error "Error creating topic:" err) c)).

(** The object literal of [publishOrder]. *)
Definition message_of (order : value) : completion value :=
  match get order "orderId" with Throws e => Throws e | Returns orderId =>
  match get order "partnerId" with Throws e => Throws e | Returns partnerId =>
  match get order "status" with Throws e => Throws e | Returns status =>
  match get order "totalAmount" with Throws e => Throws e | Returns totalAmount =>
  match get order "currency" with Throws e => Throws e | Returns currency =>
  match get order "isDeleted" with Throws e => Throws e | Returns isDeleted =>
    Returns (JObj [("orderId", orderId);
                   ("partnerId", partnerId);
                   ("status", status);
                   ("totalAmount", totalAmount);
                   ("currency", nullish_or currency (JStr "USD"));
                   ("isDeleted", JBool (ToBoolean isDeleted))])
  end end end end end end.

(** producer.mjs, [publishOrder] *)
Definition publishOrder (order : value) : K unit :=
  kbind (klift (message_of order)) (fun msg =>
  kbind (request ProducerConnect (done_by id)) (fun _ =>
  kbind (klift (get msg "orderId")) (fun key =>
  kbind (request (Send topic key (JSON_stringify msg))
           (done_by (with_message (topic, key, JSON_stringify msg)))) (fun _ =>
  request ProducerDisconnect (done_by id))))).

Definition fresh : handle :=
  {| group := groupId; connected := false; subscriptions := []; running := false |}.

Definition connect (h : handle) : handle :=
  {| group := group h; connected := true; subscriptions := subscriptions h;
     running := running h |}.

Definition subscribe (t : string) (h : handle) : handle :=
  {| group := group h; connected := connected h;
     subscriptions := subscriptions h ++ [t];
     running := running h |}.

Definition run (h : handle) : handle :=
  {| group := group h; connected := connected h; subscriptions := subscriptions h;
     running := true |}.

Definition stop (h : handle) : handle :=
  {| group := group h; connected := connected h; subscriptions := subscriptions h;
     running := false |}.

Definition disconnect (h : handle) : handle :=
  {| group := group h; connected := false; subscriptions := subscriptions h;
     running := false |}.

(** consumer.mjs, [startConsumer]: the variable is assigned before the
    consumer connects; the result is the consumer. *)
Definition startConsumer : K nat :=
  fun c =>
    let me := length (consumers c) in
    (kbind (request (ConsumerConnect me) (done_by (on_handle me connect))) (fun _ =>
     kbind (request (Subscribe me topic true)
              (done_by (on_handle me (subscribe topic)))) (fun _ =>
     kbind (request (Run me) (done_by (on_handle me run))) (fun _ =>
     kret me))))
      (with_consumer (Some me) (with_consumers (consumers c ++ [fresh]) c)).

(** consumer.mjs, [stopConsumer] *)
Definition stopConsumer : K unit :=
  fun c =>
    match consumer c with
    | Some me =>
        (kbind (request (Stop me) (done_by (on_handle me stop))) (fun _ =>
         kbind (request (ConsumerDisconnect me)
                  (done_by (on_handle me disconnect))) (fun _ =>
         fun c' => (Returns tt, with_consumer None c')))) c
    | None => (Returns tt, c)
    end.

End WithNetwork.

End Kafka.

(** The consumer [startConsumer] leaves when no call is rejected. *)
Definition started (topic groupId : string) : Kafka.handle :=
  {| Kafka.group := groupId; Kafka.connected := true;
     Kafka.subscriptions := [topic]; Kafka.running := true |}.

(** * Facts *)

(** ** Identifier codec *)

Lemma all_chars_app p a b :
  all_chars p (a +:+ b) = all_chars p a && all_chars p b.
Proof.
  induction a as [|c a IH]; simpl; [done|].
  by rewrite IH, andb_assoc.
Qed.

Lemma toLowerCase_length s : String.length (toLowerCase s) = String.length s.
Proof. induction s; simpl; congruence. Qed.

Lemma lower_idem c : lower (lower c) = lower c.
Proof. by destruct c as [[] [] [] [] [] [] [] []]. Qed.

Lemma hex_digit_not_hyphen c : is_hex_digit c = true -> Ascii.eqb c "-" = false.
Proof. by destruct c as [[] [] [] [] [] [] [] []]. Qed.

Lemma hex_lower_is_digit c : is_hex_lower c = true -> is_hex_digit c = true.
Proof. by destruct c as [[] [] [] [] [] [] [] []]. Qed.

Lemma hex_lower_fixed c : is_hex_lower c = true -> lower c = c.
Proof. by destruct c as [[] [] [] [] [] [] [] []]. Qed.

Lemma remove_hyphens_hex s :
  all_chars is_hex_digit s = true -> remove_hyphens s = s.
Proof.
  induction s as [|c s IH]; simpl; [done|].
  intros [Hc Hs]%andb_true_iff.
  by rewrite (hex_digit_not_hyphen c Hc), IH.
Qed.

Lemma all_hex_toLowerCase s :
  all_chars is_hex_digit s = all_chars is_hex_lower (toLowerCase s).
Proof. induction s as [|c s IH]; simpl; [done|]. by rewrite IH. Qed.

(** Two lower-case digits name the byte that prints back as them. *)
Lemma hex_pair_roundtrip a b :
  is_hex_lower a = true -> is_hex_lower b = true ->
  exists hi lo,
    hex_value a = Some hi /\ hex_value b = Some lo /\
    hex_digit (Byte.to_N (byte_of_nibbles hi lo) / 16) = a /\
    hex_digit (Byte.to_N (byte_of_nibbles hi lo) mod 16) = b.
Proof.
  destruct a as [[] [] [] [] [] [] [] []]; try discriminate; intros _;
    destruct b as [[] [] [] [] [] [] [] []]; try discriminate; intros _;
    eexists _, _; repeat split; vm_compute; reflexivity.
Qed.

Lemma byte_roundtrip (b : byte) :
  hex_value (hex_digit (Byte.to_N b / 16)) = Some (Byte.to_N b / 16)%N /\
  hex_value (hex_digit (Byte.to_N b mod 16)) = Some (Byte.to_N b mod 16)%N /\
  byte_of_nibbles (Byte.to_N b / 16) (Byte.to_N b mod 16) = b.
Proof. destruct b; repeat split; vm_compute; reflexivity. Qed.

Lemma hex_roundtrip n : forall h,
  String.length h = (2 * n)%nat -> all_chars is_hex_lower h = true ->
  Buffer_toString_hex (Buffer_from_hex h) = h /\
  length (Buffer_from_hex h) = n.
Proof.
  induction n as [|n IH]; intros h Hlen Hhex.
  - by destruct h.
  - destruct h as [|a [|b h]]; simpl in Hlen; try lia.
    cbn [all_chars] in Hhex.
    apply andb_true_iff in Hhex as [Ha [Hb Hh]%andb_true_iff].
    destruct (hex_pair_roundtrip a b Ha Hb) as (hi & lo & Hhi & Hlo & Ea & Eb).
    destruct (IH h) as [IH1 IH2]; [simpl in Hlen; lia | done |].
    cbn [Buffer_from_hex]. rewrite Hhi, Hlo.
    cbn [Buffer_toString_hex length]. by rewrite Ea, Eb, IH1, IH2.
Qed.

Lemma string_of_length n : forall s,
  String.length s = S n -> exists c s', s = String c s' /\ String.length s' = n.
Proof. intros [|c s'] H; [done|]. exists c, s'. split; [done|]. by injection H. Qed.

Lemma string_of_length_0 s : String.length s = 0%nat -> s = EmptyString.
Proof. by destruct s. Qed.

Ltac uncons H := apply string_of_length in H as (? & ? & -> & H).
Ltac unnil H := apply string_of_length_0 in H as ->.

Lemma canonical_split s :
  canonical_uuid s = true ->
  exists a b c d e,
    s = a +:+ "-" +:+ b +:+ "-" +:+ c +:+ "-" +:+ d +:+ "-" +:+ e /\
    String.length a = 8 /\ String.length b = 4 /\ String.length c = 4 /\
    String.length d = 4 /\ String.length e = 12 /\
    all_chars is_hex_digit (a +:+ b +:+ c +:+ d +:+ e) = true.
Proof.
  unfold canonical_uuid. rewrite !andb_true_iff, Nat.eqb_eq.
  intros [[[[[[[[[Hlen Ha] H1] Hb] H2] Hc] H3] Hd] H4] He].
  do 36 uncons Hlen. unnil Hlen.
  cbn [slice take_chars drop_chars Nat.sub] in Ha, Hb, Hc, Hd, He, H1, H2, H3, H4.
  apply String.eqb_eq in H1, H2, H3, H4.
  injection H1 as ->. injection H2 as ->. injection H3 as ->. injection H4 as ->.
  eexists (String _ (String _ (String _ (String _ (String _ (String _ (String _ (String _ EmptyString)))))))),
          (String _ (String _ (String _ (String _ EmptyString)))),
          (String _ (String _ (String _ (String _ EmptyString)))),
          (String _ (String _ (String _ (String _ EmptyString)))),
          (String _ (String _ (String _ (String _ (String _ (String _ (String _ (String _
            (String _ (String _ (String _ (String _ EmptyString)))))))))))).
  split; [cbn [String.append]; reflexivity|].
  repeat (split; [reflexivity|]).
  rewrite !all_chars_app. by rewrite Ha, Hb, Hc, Hd, He.
Qed.

Lemma string_length_app a b :
  String.length (a +:+ b) = (String.length a + String.length b)%nat.
Proof. induction a as [|c a IH]; [done|]. simpl. by rewrite IH. Qed.

Lemma remove_hyphens_app a b :
  remove_hyphens (a +:+ b) = remove_hyphens a +:+ remove_hyphens b.
Proof.
  induction a as [|c a IH]; [done|]. simpl.
  destruct (Ascii.eqb c "-"); simpl; by rewrite IH.
Qed.

Lemma toLowerCase_app a b :
  toLowerCase (a +:+ b) = toLowerCase a +:+ toLowerCase b.
Proof. induction a as [|c a IH]; [done|]. simpl. by rewrite IH. Qed.

(** Dropping the hyphens of the external form leaves its five groups. *)
Lemma remove_hyphens_groups a b c d e :
  all_chars is_hex_digit (a +:+ b +:+ c +:+ d +:+ e) = true ->
  remove_hyphens (a +:+ "-" +:+ b +:+ "-" +:+ c +:+ "-" +:+ d +:+ "-" +:+ e)
  = a +:+ b +:+ c +:+ d +:+ e.
Proof.
  rewrite !all_chars_app, !andb_true_iff. intros (Ha & Hb & Hc & Hd & He).
  rewrite !remove_hyphens_app. cbn [remove_hyphens Ascii.eqb Bool.eqb String.append].
  by rewrite !remove_hyphens_hex.
Qed.

(** Cutting 32 characters at 8, 12, 16 and 20 gives the five groups back. *)
Lemma hyphenate_groups a b c d e :
  String.length a = 8%nat -> String.length b = 4%nat -> String.length c = 4%nat ->
  String.length d = 4%nat -> String.length e = 12%nat ->
  let h := a +:+ b +:+ c +:+ d +:+ e in
  slice 0 8 h +:+ "-" +:+ slice 8 12 h +:+ "-" +:+ slice 12 16 h +:+ "-" +:+
  slice 16 20 h +:+ "-" +:+ slice_from 20 h
  = a +:+ "-" +:+ b +:+ "-" +:+ c +:+ "-" +:+ d +:+ "-" +:+ e.
Proof.
  intros Ha Hb Hc Hd He.
  do 8 uncons Ha. unnil Ha. do 4 uncons Hb. unnil Hb. do 4 uncons Hc. unnil Hc.
  do 4 uncons Hd. unnil Hd. do 12 uncons He. unnil He.
  reflexivity.
Qed.

Lemma parse_returns s :
  test_hex32 (toLowerCase (remove_hyphens s)) = true ->
  parse s = Returns (Buffer_from_hex (toLowerCase (remove_hyphens s))).
Proof. unfold parse. by intros ->. Qed.

Lemma parse_throws s :
  test_hex32 (toLowerCase (remove_hyphens s)) = false ->
  parse s = Throws (InvalidUUID s).
Proof. unfold parse. by intros ->. Qed.

Lemma stringify_from_hex h :
  test_hex32 h = true ->
  Buffer_toString_hex (Buffer_from_hex h) = h /\
  length (Buffer_from_hex h) = 16%nat.
Proof.
  intros [Hlen Hhex]%andb_true_iff. apply Nat.eqb_eq in Hlen.
  by apply (hex_roundtrip 16).
Qed.

Lemma canonical_join a b c d e :
  String.length a = 8%nat -> String.length b = 4%nat -> String.length c = 4%nat ->
  String.length d = 4%nat -> String.length e = 12%nat ->
  all_chars is_hex_digit (a +:+ b +:+ c +:+ d +:+ e) = true ->
  canonical_uuid (a +:+ "-" +:+ b +:+ "-" +:+ c +:+ "-" +:+ d +:+ "-" +:+ e) = true.
Proof.
  intros Ha Hb Hc Hd He.
  rewrite !all_chars_app, !andb_true_iff. intros (Xa & Xb & Xc & Xd & Xe).
  do 8 uncons Ha. unnil Ha. do 4 uncons Hb. unnil Hb. do 4 uncons Hc. unnil Hc.
  do 4 uncons Hd. unnil Hd. do 12 uncons He. unnil He.
  unfold canonical_uuid.
  cbv [String.append slice take_chars drop_chars Nat.sub String.length Nat.eqb].
  by rewrite Xa, Xb, Xc, Xd, Xe.
Qed.

Lemma is_hex_lower_alphabet c : is_hex_lower c = true <-> In c hex_alphabet.
Proof.
  split.
  - destruct c as [[] [] [] [] [] [] [] []]; try discriminate; intros _;
      vm_compute; tauto.
  - intros H. repeat (destruct H as [<-|H]; [reflexivity|]). destruct H.
Qed.

Lemma all_chars_In p s :
  all_chars p s = true <-> forall c, In c (list_ascii_of_string s) -> p c = true.
Proof.
  induction s as [|c s IH]; simpl.
  - split; [intros _ ? []|done].
  - rewrite andb_true_iff, IH. split.
    + intros [Hc Hs] x [<-|Hx]; auto.
    + intros H. split; [apply H; by left|]. intros x Hx. apply H. by right.
Qed.

Lemma test_hex32_spec h : test_hex32 h = true <-> is_32_hex h.
Proof.
  unfold test_hex32, is_32_hex.
  rewrite andb_true_iff, Nat.eqb_eq, all_chars_In.
  by setoid_rewrite is_hex_lower_alphabet.
Qed.


(** C4. Round trip: for every 36-character hyphenated identifier [s],
    [stringify (parse s)] is [s] in lower case. *)
Theorem stringify_parse_roundtrip (s : string) :
  canonical_uuid s = true ->
  exists buf, parse s = Returns buf /\ stringify buf = toLowerCase s.
Proof.
  intros (a & b & c & d & e & -> & Ha & Hb & Hc & Hd & He & Hhex)%canonical_split.
  assert (Htest : test_hex32 (toLowerCase (a +:+ b +:+ c +:+ d +:+ e)) = true).
  { unfold test_hex32. rewrite toLowerCase_length, !string_length_app, <- all_hex_toLowerCase.
    rewrite Ha, Hb, Hc, Hd, He. by rewrite Hhex. }
  eexists. split.
  - rewrite parse_returns; rewrite remove_hyphens_groups by done; done.
  - unfold stringify.
    destruct (stringify_from_hex _ Htest) as [-> _].
    rewrite !toLowerCase_app.
    rewrite hyphenate_groups by (by rewrite toLowerCase_length).
    reflexivity.
Qed.

Lemma stringify_parse_roundtrip_witness :
  canonical_uuid "123E4567-E89B-12d3-A456-426614174000" = true /\
  exists buf,
    parse "123E4567-E89B-12d3-A456-426614174000" = Returns buf /\
    stringify buf = "123e4567-e89b-12d3-a456-426614174000".
Proof.
  split; [reflexivity|].
  exact (stringify_parse_roundtrip "123E4567-E89B-12d3-A456-426614174000" eq_refl).
Defined.

(** C8. [parse] throws exactly when the input, hyphens removed and lower-cased,
    is not 32 hexadecimal characters, and the error is the invalid-identifier
    one; otherwise it returns the 16 bytes those characters spell. *)
Theorem parse_fails_exactly (s : string) :
  let hex := toLowerCase (remove_hyphens s) in
  (forall e, parse s = Throws e <-> e = InvalidUUID s /\ ~ is_32_hex hex) /\
  (is_32_hex hex ->
   exists buf, parse s = Returns buf /\ length buf = 16%nat /\
               Buffer_toString_hex buf = hex).
Proof.
  cbn zeta. split.
  - intros e. rewrite <- test_hex32_spec.
    destruct (test_hex32 (toLowerCase (remove_hyphens s))) eqn:Ht.
    + rewrite (parse_returns _ Ht). split; [done|]. by intros [_ []].
    + rewrite (parse_throws _ Ht). split.
      * intros [= <-]. by split.
      * by intros [-> _].
  - intros Ht%test_hex32_spec.
    rewrite (parse_returns _ Ht).
    destruct (stringify_from_hex _ Ht) as [Hs Hl]. eauto.
Qed.

Lemma parse_fails_exactly_witness :
  parse "123e4567-e89b-12d3-a456-42661417400g"
  = Throws (InvalidUUID "123e4567-e89b-12d3-a456-42661417400g") /\
  exists buf,
    parse "123E4567e89b-12d3-a456-426614174000" = Returns buf /\ length buf = 16%nat.
Proof.
  split.
  - apply (proj1 (parse_fails_exactly "123e4567-e89b-12d3-a456-42661417400g")).
    split; [reflexivity|]. intros Hx%test_hex32_spec. discriminate Hx.
  - destruct (proj2 (parse_fails_exactly "123E4567e89b-12d3-a456-426614174000"))
      as (buf & Hp & Hl & _).
    + apply test_hex32_spec. reflexivity.
    + exists buf. by split.
Defined.

(** C7, as stated, fails: 32 hex digits without any hyphen are accepted
    although they are not in the 8-4-4-4-12 form. *)
Lemma parse_accepts_unhyphenated :
  canonical_uuid "123e4567e89b12d3a456426614174000" = false /\
  exists buf, parse "123e4567e89b12d3a456426614174000" = Returns buf.
Proof. split; [reflexivity|]. eexists. reflexivity. Qed.

(** C7, amended. [parse] succeeds exactly on the inputs that are an 8-4-4-4-12
    identifier (hex digits of either case) up to where, and whether, the hyphens
    are written. *)
Theorem parse_succeeds_iff_canonical_modulo_hyphens (s : string) :
  (exists buf, parse s = Returns buf) <->
  (exists c, canonical_uuid c = true /\ remove_hyphens s = remove_hyphens c).
Proof.
  split.
  - intros [buf Hp].
    destruct (test_hex32 (toLowerCase (remove_hyphens s))) eqn:Ht;
      [|by rewrite (parse_throws _ Ht) in Hp].
    apply andb_true_iff in Ht as [Hlen Hhex].
    rewrite <- all_hex_toLowerCase in Hhex.
    rewrite toLowerCase_length in Hlen. apply Nat.eqb_eq in Hlen.
    remember (remove_hyphens s) as h eqn:Eh. clear Eh Hp.
    do 32 uncons Hlen. unnil Hlen.
    eexists ((String _ (String _ (String _ (String _ (String _ (String _ (String _ (String _ EmptyString)))))))) +:+ "-" +:+ (String _ (String _ (String _ (String _ EmptyString)))) +:+ "-" +:+
             (String _ (String _ (String _ (String _ EmptyString)))) +:+ "-" +:+ (String _ (String _ (String _ (String _ EmptyString)))) +:+ "-" +:+
             (String _ (String _ (String _ (String _ (String _ (String _ (String _ (String _ (String _ (String _ (String _ (String _ EmptyString))))))))))))).
    split.
    + apply canonical_join; try reflexivity. exact Hhex.
    + rewrite remove_hyphens_groups by exact Hhex. reflexivity.
  - intros (c & (a & b & g & d & e & -> & Ha & Hb & Hg & Hd & He & Hhex)%canonical_split & Hs).
    rewrite remove_hyphens_groups in Hs by done.
    eexists. apply parse_returns. rewrite Hs.
    unfold test_hex32.
    rewrite toLowerCase_length, !string_length_app, <- all_hex_toLowerCase, Ha, Hb, Hg, Hd, He.
    by rewrite Hhex.
Qed.

Lemma parse_succeeds_iff_canonical_modulo_hyphens_witness :
  exists buf, parse "123E4567e89b-12d3a456-426614174000" = Returns buf.
Proof.
  apply (proj2 (parse_succeeds_iff_canonical_modulo_hyphens
                  "123E4567e89b-12d3a456-426614174000")).
  exists "123E4567-e89b-12d3-a456-426614174000". split; vm_compute; reflexivity.
Defined.

(** ** Retry classifier *)

Ltac pick_disjunct := solve [auto 10].

Lemma has_retryableCodes (c : option string) :
  has retryableCodes c = true <->
  c = Some "PROTOCOL_CONNECTION_LOST" \/ c = Some "ECONNREFUSED" \/
  c = Some "ETIMEDOUT" \/ c = Some "EPIPE" \/ c = Some "ECONNRESET" \/
  c = Some "PROTOCOL_ENQUEUE_AFTER_FATAL_ERROR".
Proof.
  destruct c as [c|]; simpl.
  - rewrite bool_decide_eq_true. unfold retryableCodes. set_unfold.
    split; intros H; repeat destruct H as [H|H];
      first [injection H as -> | subst c]; pick_disjunct.
  - split; intros H; repeat destruct H as [H|H]; discriminate.
Qed.

Lemma has_retryableErrnos (n : option Z) :
  has retryableErrnos n = true <-> n = Some 1205%Z \/ n = Some 1213%Z.
Proof.
  destruct n as [n|]; simpl.
  - rewrite bool_decide_eq_true. unfold retryableErrnos. set_unfold.
    split; intros H; repeat destruct H as [H|H];
      first [injection H as -> | subst n]; pick_disjunct.
  - split; intros H; repeat destruct H as [H|H]; discriminate.
Qed.

Lemma isRetryable_cause (e : error) :
  isRetryable e = true <-> exists c, has_cause e c.
Proof.
  unfold isRetryable.
  rewrite orb_true_iff, has_retryableCodes, has_retryableErrnos. split.
  - intros [H|H]; repeat destruct H as [H|H];
      first [by exists ConnectionLoss | by exists ConnectionRefused | by exists Timeout
            | by exists BrokenPipe | by exists ConnectionReset
            | by exists EnqueueAfterFatalDisconnect
            | by exists LockWaitTimeout | by exists Deadlock].
  - intros [[] H]; simpl in H; rewrite H; first [left; pick_disjunct | right; pick_disjunct].
Qed.

(** C5. The classifier answers Retryable exactly for the eight transient
    causes, and Permanent for every other error. *)
Theorem classify_by_cause (e : error) :
  (classify e = Retryable <-> exists c, has_cause e c) /\
  (classify e = Permanent <-> ~ exists c, has_cause e c).
Proof.
  rewrite <- isRetryable_cause. unfold classify.
  destruct (isRetryable e); split; split; try done.
Qed.

(** ** One attempt of the handler *)

Lemma retryable_is_store_error (e : error) :
  isRetryable e = true -> exists c n, e = StoreError c n.
Proof. destruct e; try discriminate. eauto. Qed.

Lemma parse_value_error (v : value) (e : error) :
  parse_value v = Throws e -> isRetryable e = false.
Proof.
  destruct v; simpl; try (by intros [= <-]).
  unfold parse. destruct (negb _); [|done]. by intros [= <-].
Qed.

Lemma count_attempts_app (a b : list event) :
  count_attempts (a ++ b) = (count_attempts a + count_attempts b)%nat.
Proof. unfold count_attempts. by rewrite omap_app, length_app. Qed.

Lemma waits_app (a b : list event) : waits (a ++ b) = waits a ++ waits b.
Proof. apply omap_app. Qed.

Section AttemptFacts.

Variable env : nat -> circumstances.
Variable kept : Column.t -> value -> value.

Lemma upsertOrder_invalid order e w :
  parse_value (Order.orderId order) = Throws e ->
  upsertOrder env kept order w = (Throws e, w).
Proof. intros H. unfold upsertOrder, bind, lift. by rewrite H. Qed.

Lemma upsertOrder_faulted order k e w :
  parse_value (Order.orderId order) = Returns k ->
  fault (env (issued w)) = Some e ->
  upsertOrder env kept order w = (Throws e, sent w).
Proof. intros Hk He. unfold upsertOrder, bind, lift, query. by rewrite Hk, He. Qed.

Lemma upsertOrder_written order k w :
  parse_value (Order.orderId order) = Returns k ->
  fault (env (issued w)) = None ->
  upsertOrder env kept order w =
  let written :=
    insert_on_duplicate_key_update kept k
      (Order.partnerId order) (Order.status order) (Order.totalAmount order)
      (default (Order.currency order) (JStr "USD"))
      (if ToBoolean (default (Order.isDeleted order) (JBool false)) then 1 else 0)%Z
      (at_time (env (issued w))) (orders_ops w) in
  (Returns (fst written), with_table (snd written) (sent w)).
Proof.
  intros Hk He. unfold upsertOrder, bind, lift, query, ret.
  rewrite Hk, He. cbn zeta. by destruct insert_on_duplicate_key_update.
Qed.

Lemma apply_once_invalid order e n w :
  parse_value (Order.orderId order) = Throws e ->
  apply_once env kept order n w = (Throws (AbortError e), w).
Proof.
  intros H. unfold apply_once, try_catch, bind.
  rewrite (upsertOrder_invalid _ _ _ H). by rewrite (parse_value_error _ _ H).
Qed.

Lemma apply_once_retryable order k e n w :
  parse_value (Order.orderId order) = Returns k ->
  fault (env (issued w)) = Some e -> isRetryable e = true ->
  apply_once env kept order n w = (Throws e, sent w).
Proof.
  intros Hk He Hr. unfold apply_once, try_catch, bind.
  rewrite (upsertOrder_faulted _ _ _ _ Hk He). by rewrite Hr.
Qed.

Lemma apply_once_permanent order k e n w :
  parse_value (Order.orderId order) = Returns k ->
  fault (env (issued w)) = Some e -> isRetryable e = false ->
  apply_once env kept order n w = (Throws (AbortError e), sent w).
Proof.
  intros Hk He Hr. unfold apply_once, try_catch, bind.
  rewrite (upsertOrder_faulted _ _ _ _ Hk He). by rewrite Hr.
Qed.

Lemma apply_once_written order k n w :
  parse_value (Order.orderId order) = Returns k ->
  fault (env (issued w)) = None ->
  exists t, apply_once env kept order n w = (Returns tt, with_table t (sent w)).
Proof.
  intros Hk He. unfold apply_once, try_catch, bind.
  rewrite (upsertOrder_written _ _ _ Hk He). cbn zeta. eauto.
Qed.

(** An attempt writes nothing on the console and does not wait. *)
Lemma apply_once_trace order n w :
  trace (snd (apply_once env kept order n w)) = trace w.
Proof.
  destruct (parse_value (Order.orderId order)) as [k|e] eqn:Hk.
  - destruct (fault (env (issued w))) as [e|] eqn:He.
    + destruct (isRetryable e) eqn:Hr.
      * by rewrite (apply_once_retryable _ _ _ _ _ Hk He Hr).
      * by rewrite (apply_once_permanent _ _ _ _ _ Hk He Hr).
    + by destruct (apply_once_written _ _ n _ Hk He) as [t ->].
  - by rewrite (apply_once_invalid _ _ _ _ Hk).
Qed.

End AttemptFacts.

(** ** The retry executor *)

(** Whatever the input does, the executor calls it at most once more than
    there are waits, and waits along the schedule, in order. *)
Lemma attempts_bounded (input : nat -> M unit) :
  (forall n w, trace (snd (input n w)) = trace w) ->
  forall ws n w,
  exists tr,
    trace (snd (attempts input onFailedAttempt n ws w)) = trace w ++ tr /\
    (count_attempts tr <= S (length ws))%nat /\
    waits tr `prefix_of` ws.
Proof.
  intros Hinput ws.
  assert (Hstop : forall n w w1 (ws' : list Z),
    trace w1 = trace (record (Attempt n) w) ->
    exists tr, trace w1 = trace w ++ tr /\
               (count_attempts tr <= S (length ws'))%nat /\ waits tr `prefix_of` ws').
  { intros n w w1 ws' ->. exists [Attempt n].
    repeat split; [cbn; lia | by exists ws']. }
  induction ws as [|d ws IH]; intros n w; cbn [attempts];
    specialize (Hinput n (record (Attempt n) w));
    destruct (input n (record (Attempt n) w)) as [[[]|e] w1]; cbn [snd] in *;
    try (by apply (Hstop n)).
  - destruct e; try (by apply (Hstop n)); cbn [snd];
      (eexists [Attempt n; Warned n 0 _]; cbn; rewrite Hinput; cbn;
       rewrite <- app_assoc; repeat split; [cbn; lia | by exists []]).
  - assert (Hrest : forall w2,
        trace w2 = (trace w ++ [Attempt n]) ++ [Warned n (S (length ws)) e] ->
        exists tr,
          trace (snd (attempts input onFailedAttempt (S n) ws (record (Slept d) w2)))
          = trace w ++ tr /\
          (count_attempts tr <= S (S (length ws)))%nat /\ waits tr `prefix_of` d :: ws).
    { intros w2 Hw2. destruct (IH (S n) (record (Slept d) w2)) as (tr & Htr & Hc & Hp).
      exists ([Attempt n; Warned n (S (length ws)) e; Slept d] ++ tr).
      rewrite Htr. cbn [record trace]. rewrite Hw2, <- !app_assoc. split; [done|].
      rewrite count_attempts_app, waits_app. split; [cbn; lia|].
      cbn. by apply prefix_cons. }
    destruct e; try (by apply (Hstop n)); apply Hrest; cbn; by rewrite Hinput.
Qed.

(** ** The handler of one message *)

Lemma classify_Retryable (e : error) : classify e = Retryable <-> isRetryable e = true.
Proof. unfold classify. by destruct (isRetryable e). Qed.

Lemma classify_Permanent (e : error) : classify e = Permanent <-> isRetryable e = false.
Proof. unfold classify. by destruct (isRetryable e). Qed.

Section HandlerFacts.

Variable env : nat -> circumstances.
Variable kept : Column.t -> value -> value.

Lemma eachMessage_decoded payload order w :
  order_of payload = Returns order ->
  eachMessage env kept (Returns payload) w =
  attempts (apply_once env kept order) onFailedAttempt 1 [2000; 4000]%Z w.
Proof. intros H. unfold eachMessage, bind, lift. by rewrite H. Qed.

(** No message is tried more than three times, and the waits follow the
    schedule. *)
Lemma eachMessage_bounded parsed w :
  exists tr,
    trace (snd (eachMessage env kept parsed w)) = trace w ++ tr /\
    (count_attempts tr <= 3)%nat /\ waits tr `prefix_of` [2000; 4000]%Z.
Proof.
  assert (Hnone : exists tr, trace w = trace w ++ tr /\
            (count_attempts tr <= 3)%nat /\ waits tr `prefix_of` [2000; 4000]%Z).
  { exists []. rewrite app_nil_r. repeat split; [cbn; lia | by eexists]. }
  destruct parsed as [payload|e]; [|exact Hnone].
  destruct (order_of payload) as [order|e] eqn:Ho.
  - rewrite (eachMessage_decoded _ _ _ Ho).
    apply (attempts_bounded _ (apply_once_trace env kept order) [2000; 4000]%Z).
  - unfold eachMessage, bind, lift. by rewrite Ho.
Qed.

(** Retryable failures are skipped over one wait at a time. *)
Lemma attempts_skip_retryable order k m : forall ws n w,
  parse_value (Order.orderId order) = Returns k ->
  (m <= length ws)%nat ->
  (forall j, (j < m)%nat ->
     exists t, fault (env (issued w + j)) = Some t /\ classify t = Retryable) ->
  exists w' tr,
    attempts (apply_once env kept order) onFailedAttempt n ws w
    = attempts (apply_once env kept order) onFailedAttempt (n + m) (drop m ws) w' /\
    orders_ops w' = orders_ops w /\ issued w' = (issued w + m)%nat /\
    trace w' = trace w ++ tr /\ count_attempts tr = m /\ waits tr = take m ws.
Proof.
  intros ws n w Hk. revert ws n w. induction m as [|m IH]; intros ws n w Hm Hfaults.
  - exists w, []. rewrite Nat.add_0_r, app_nil_r, drop_0. by rewrite Nat.add_0_r.
  - destruct ws as [|d ws]; [simpl in Hm; lia|].
    destruct (Hfaults 0%nat ltac:(lia)) as (t & Ht & Hr%classify_Retryable).
    rewrite Nat.add_0_r in Ht.
    destruct (retryable_is_store_error t Hr) as (c & x & ->).
    cbn [attempts].
    rewrite (apply_once_retryable env kept order k _ n (record (Attempt n) w) Hk Ht Hr).
    set (w1 := record (Slept d) _).
    destruct (IH ws (S n) w1) as (w' & tr & Heq & Ht' & Hi & Htr & Hc & Hw).
    { simpl in Hm. lia. }
    { intros j Hj. destruct (Hfaults (S j) ltac:(lia)) as (t' & Ht' & Hr').
      exists t'. split; [|done]. cbn. by rewrite <- Nat.add_succ_r, <- Ht'. }
    exists w', ([Attempt n; Warned n (S (length ws)) (StoreError c x); Slept d] ++ tr).
    rewrite Heq, Ht', Hi, Htr, count_attempts_app, waits_app, Hc, Hw.
    cbn. rewrite <- !app_assoc, Nat.add_succ_r. repeat split; try done; lia.
Qed.

End HandlerFacts.

(** C6. A message whose apply keeps failing with a Retryable cause is tried
    three times, with waits of 2000 ms and 4000 ms (the least wait doubled
    once, each capped at 5000 ms, no random factor), and then rejected; and no
    message at all is tried more than three times or waits off that schedule. *)
Theorem retryable_failures_follow_schedule
  (env : nat -> circumstances) (kept : Column.t -> value -> value)
  (payload : value) (order : Order.t) (k : Buffer) (w : world) (e1 e2 e3 : error) :
  order_of payload = Returns order ->
  parse_value (Order.orderId order) = Returns k ->
  fault (env (issued w)) = Some e1 -> classify e1 = Retryable ->
  fault (env (issued w + 1)) = Some e2 -> classify e2 = Retryable ->
  fault (env (issued w + 2)) = Some e3 -> classify e3 = Retryable ->
  let handled := eachMessage env kept (Returns payload) w in
  fst handled = Throws e3 /\
  trace (snd handled)
  = trace w ++ [Attempt 1; Warned 1 2 e1; Slept 2000;
                Attempt 2; Warned 2 1 e2; Slept 4000;
                Attempt 3; Warned 3 0 e3] /\
  issued (snd handled) = (issued w + 3)%nat /\
  orders_ops (snd handled) = orders_ops w /\
  randomize retry_options = false /\
  timeouts retry_options
  = [Z.min (2000 * 2 ^ 0) 5000; Z.min (2000 * 2 ^ 1) 5000]%Z /\
  (forall parsed w0,
     exists tr,
       trace (snd (eachMessage env kept parsed w0)) = trace w0 ++ tr /\
       (count_attempts tr <= 3)%nat /\ waits tr `prefix_of` [2000; 4000]%Z).
Proof.
  intros Ho Hk H1 R1%classify_Retryable H2 R2%classify_Retryable
         H3 R3%classify_Retryable handled.
  pose (w1 := onFailedAttempt e1 1 2 (sent (record (Attempt 1) w))).
  pose (w2 := onFailedAttempt e2 2 1 (sent (record (Attempt 2) (record (Slept 2000) w1)))).
  pose (w3 := onFailedAttempt e3 3 0 (sent (record (Attempt 3) (record (Slept 4000) w2)))).
  assert (Hrun : handled = (Throws e3, w3)).
  { subst handled. rewrite (eachMessage_decoded _ _ _ _ _ Ho).
    destruct (retryable_is_store_error _ R1) as (c1 & n1 & ->).
    destruct (retryable_is_store_error _ R2) as (c2 & n2 & ->).
    destruct (retryable_is_store_error _ R3) as (c3 & n3 & ->).
    rewrite Nat.add_1_r in H2. replace (issued w + 2)%nat with (S (S (issued w))) in H3 by lia.
    cbn [attempts length].
    rewrite (apply_once_retryable env kept order k _ 1 (record (Attempt 1) w) Hk H1 R1).
    cbn iota. fold w1.
    rewrite (apply_once_retryable env kept order k _ 2
               (record (Attempt 2) (record (Slept 2000) w1)) Hk H2 R2).
    cbn iota. fold w2.
    by rewrite (apply_once_retryable env kept order k _ 3
                  (record (Attempt 3) (record (Slept 4000) w2)) Hk H3 R3). }
  rewrite Hrun. cbn [fst snd].
  split; [done|]. split; [cbn; by rewrite <- !app_assoc|].
  split; [cbn; lia|]. split; [done|]. split; [done|]. split; [done|].
  intros parsed w0. apply eachMessage_bounded.
Qed.

Lemma retryable_failures_follow_schedule_witness :
  let handled :=
    eachMessage (Samples.always (Some Samples.connection_refused))
      Samples.kept_as_bound (Returns Samples.placed) Samples.empty_store in
  fst handled = Throws Samples.connection_refused /\
  waits (trace (snd handled)) = [2000; 4000]%Z /\
  count_attempts (trace (snd handled)) = 3%nat.
Proof.
  destruct (retryable_failures_follow_schedule
              (Samples.always (Some Samples.connection_refused)) Samples.kept_as_bound
              Samples.placed _ _ Samples.empty_store
              Samples.connection_refused Samples.connection_refused
              Samples.connection_refused
              eq_refl eq_refl eq_refl eq_refl eq_refl eq_refl eq_refl eq_refl)
    as (Hr & Ht & _).
  cbn zeta. rewrite Hr, Ht. repeat split; reflexivity.
Defined.

(** C1, as stated, fails: the store denies access (a Permanent cause), the
    handler throws, and the offset of the message is not committed. *)
Lemma permanent_failure_not_committed :
  let handled :=
    eachMessage (Samples.always (Some Samples.access_denied))
      Samples.kept_as_bound (Returns Samples.placed) Samples.empty_store in
  classify Samples.access_denied = Permanent /\
  fst handled = Throws Samples.access_denied /\
  offset_committed (fst handled) = false.
Proof. repeat split; reflexivity. Qed.

(** C1, amended. When the apply of a message fails with a Permanent cause,
    at the first attempt or after retryable failures, the handler makes no
    further attempt, leaves the table as it was, and throws that error: it does
    not return, so the offset of the message is not committed. *)
Theorem permanent_failure_stops_and_throws
  (env : nat -> circumstances) (kept : Column.t -> value -> value)
  (payload : value) (order : Order.t) (k : Buffer) (w : world)
  (n : nat) (e : error) :
  order_of payload = Returns order ->
  parse_value (Order.orderId order) = Returns k ->
  (n <= 2)%nat ->
  (forall j, (j < n)%nat ->
     exists t, fault (env (issued w + j)) = Some t /\ classify t = Retryable) ->
  fault (env (issued w + n)) = Some e -> classify e = Permanent ->
  let handled := eachMessage env kept (Returns payload) w in
  fst handled = Throws e /\
  offset_committed (fst handled) = false /\
  orders_ops (snd handled) = orders_ops w /\
  issued (snd handled) = (issued w + n + 1)%nat /\
  exists tr,
    trace (snd handled) = trace w ++ tr ++ [Attempt (n + 1)] /\
    count_attempts tr = n.
Proof.
  intros Ho Hk Hn Hfaults He Hp%classify_Permanent handled. subst handled.
  rewrite (eachMessage_decoded _ _ _ _ _ Ho).
  destruct (attempts_skip_retryable env kept order k n [2000; 4000]%Z 1 w Hk Hn Hfaults)
    as (w' & tr & -> & Ht & Hi & Htr & Hc & _).
  rewrite <- Hi in He.
  assert (Hlast : forall ws,
    attempts (apply_once env kept order) onFailedAttempt (1 + n) ws w'
    = (Throws e, sent (record (Attempt (1 + n)) w'))).
  { intros ws. destruct ws; cbn [attempts];
      by rewrite (apply_once_permanent env kept order k e _ (record _ w') Hk He Hp). }
  rewrite Hlast. cbn [fst snd offset_committed].
  repeat split; [done | cbn; lia |].
  exists tr. cbn. rewrite Htr, <- app_assoc. split; [|done].
  by rewrite (Nat.add_comm n 1).
Qed.

Lemma permanent_failure_stops_and_throws_witness :
  let handled :=
    eachMessage Samples.refused_then_denied Samples.kept_as_bound
      (Returns Samples.placed) Samples.empty_store in
  fst handled = Throws Samples.access_denied /\
  offset_committed (fst handled) = false /\
  issued (snd handled) = 2%nat.
Proof.
  destruct (permanent_failure_stops_and_throws
              Samples.refused_then_denied Samples.kept_as_bound
              Samples.placed _ _ Samples.empty_store 1 Samples.access_denied
              eq_refl eq_refl) as (Hr & Hc & _ & Hi & _).
  - lia.
  - intros j Hj. exists Samples.connection_refused.
    destruct j; [split; reflexivity | lia].
  - reflexivity.
  - reflexivity.
  - cbn zeta. rewrite Hr, Hi. repeat split; reflexivity.
Defined.

(** C2, as stated, fails: a payload whose [orderId] is not an identifier is
    not skipped; the handler throws and the offset is not committed.  The same
    holds for a text that does not parse. *)
Lemma decode_failure_not_committed :
  decode_fails (Returns Samples.misnamed) = true /\
  fst (eachMessage (Samples.always None) Samples.kept_as_bound
         (Returns Samples.misnamed) Samples.empty_store)
  = Throws (InvalidUUID "not-a-uuid") /\
  offset_committed
    (fst (eachMessage (Samples.always None) Samples.kept_as_bound
            (Returns Samples.misnamed) Samples.empty_store)) = false /\
  offset_committed
    (fst (eachMessage (Samples.always None) Samples.kept_as_bound
            (Throws SyntaxError) Samples.empty_store)) = false.
Proof. repeat split; reflexivity. Qed.

(** C2, amended. When the payload of a message fails to decode, the handler
    sends nothing to the store, does not retry, and throws the decoding error
    itself (the error of [JSON.parse], of reading the members of the payload,
    or of [parse] on its [orderId]): it does not return, so the offset of the
    message is not committed. *)
Theorem decode_failure_throws
  (env : nat -> circumstances) (kept : Column.t -> value -> value)
  (parsed : completion value) (w : world) :
  decode_fails parsed = true ->
  let handled := eachMessage env kept parsed w in
  fst handled
  = match parsed with
    | Throws e => Throws e
    | Returns payload =>
        match order_of payload with
        | Throws e => Throws e
        | Returns order =>
            match parse_value (Order.orderId order) with
            | Throws e => Throws e
            | Returns _ => Returns tt
            end
        end
    end /\
  (exists e, fst handled = Throws e) /\
  offset_committed (fst handled) = false /\
  orders_ops (snd handled) = orders_ops w /\
  issued (snd handled) = issued w /\
  (trace (snd handled) = trace w \/ trace (snd handled) = trace w ++ [Attempt 1]).
Proof.
  intros Hd. cbn zeta. unfold decode_fails in Hd.
  destruct parsed as [payload|e].
  - destruct (order_of payload) as [order|e] eqn:Ho.
    + destruct (parse_value (Order.orderId order)) as [k|e] eqn:Hk; [done|].
      rewrite (eachMessage_decoded _ _ _ _ _ Ho). cbn [attempts].
      rewrite (apply_once_invalid env kept order e 1 _ Hk). cbn.
      repeat split; eauto.
    + unfold eachMessage, bind, lift. rewrite Ho. cbn.
      repeat split; eauto.
  - cbn. repeat split; eauto.
Qed.

Lemma decode_failure_throws_witness :
  let handled :=
    eachMessage (Samples.always None) Samples.kept_as_bound
      (Returns Samples.misnamed) Samples.empty_store in
  fst handled = Throws (InvalidUUID "not-a-uuid") /\
  offset_committed (fst handled) = false /\
  issued (snd handled) = 0%nat.
Proof.
  destruct (decode_failure_throws (Samples.always None) Samples.kept_as_bound
              (Returns Samples.misnamed) Samples.empty_store
              ltac:(vm_compute; reflexivity))
    as (He & _ & Hc & _ & Hi & _).
  cbn zeta. rewrite Hc, Hi. split; [|split; reflexivity].
  rewrite He. vm_compute. reflexivity.
Defined.

(** ** Store gateway *)

Lemma insert_desc_perm x l : insert_desc x l ≡ₚ x :: l.
Proof.
  induction l as [|y l IH]; simpl; [done|].
  destruct (_ <=? _)%Z; [done|]. rewrite IH. apply Permutation_swap.
Qed.

Lemma order_by_created_ts_desc_perm l : order_by_created_ts_desc l ≡ₚ l.
Proof.
  induction l as [|x l IH]; simpl; [done|].
  unfold order_by_created_ts_desc in *. simpl.
  by rewrite insert_desc_perm, IH.
Qed.

(** An apply that reaches the store leaves every other row as it was. *)
Lemma upsertOrder_written_elsewhere
  (env : nat -> circumstances) (kept : Column.t -> value -> value)
  (order : Order.t) (k : Buffer) (w : world) (k' : Buffer) :
  parse_value (Order.orderId order) = Returns k ->
  k' <> k ->
  orders_ops (snd (upsertOrder env kept order w)) !! k' = orders_ops w !! k'.
Proof.
  intros Hk Hne.
  destruct (fault (env (issued w))) as [e|] eqn:Hf.
  - by rewrite (upsertOrder_faulted env kept order k e w Hk Hf).
  - rewrite (upsertOrder_written env kept order k w Hk Hf). cbn zeta.
    unfold insert_on_duplicate_key_update.
    destruct (orders_ops w !! k); cbn [snd with_table orders_ops];
      by rewrite lookup_insert_ne.
Qed.

(** C3. An apply that reaches the store writes the row keyed by the encoded
    [orderId]: a new row when there is none, and otherwise the five mutable
    columns and [updated_ts] replaced, [created_ts] as it was; no other row
    changes. *)
Theorem upsertOrder_writes_one_row
  (env : nat -> circumstances) (kept : Column.t -> value -> value)
  (order : Order.t) (k : Buffer) (w : world) :
  parse_value (Order.orderId order) = Returns k ->
  fault (env (issued w)) = None ->
  let now := at_time (env (issued w)) in
  let applied := upsertOrder env kept order w in
  fst applied
  = Returns (match orders_ops w !! k with None => Inserted | Some _ => Updated end) /\
  orders_ops (snd applied) !! k
  = Some {| Row.partner_id := kept Column.partner_id (Order.partnerId order);
            Row.status := kept Column.status (Order.status order);
            Row.total_amount := kept Column.total_amount (Order.totalAmount order);
            Row.currency :=
              kept Column.currency (default (Order.currency order) (JStr "USD"));
            Row.is_deleted :=
              if ToBoolean (default (Order.isDeleted order) (JBool false))
              then 1%Z else 0%Z;
            Row.created_ts :=
              match orders_ops w !! k with
              | None => now
              | Some old => Row.created_ts old
              end;
            Row.updated_ts := now |} /\
  (forall k', k' <> k -> orders_ops (snd applied) !! k' = orders_ops w !! k').
Proof.
  intros Hk Hf now applied. subst now applied.
  rewrite (upsertOrder_written env kept order k w Hk Hf). cbn zeta.
  unfold insert_on_duplicate_key_update.
  destruct (orders_ops w !! k) as [old|]; cbn [fst snd with_table orders_ops];
    (split; [done|]); (split; [by rewrite lookup_insert_eq|]);
    intros k' Hne; by rewrite lookup_insert_ne.
Qed.

Lemma upsertOrder_writes_one_row_witness :
  let first :=
    snd (upsertOrder (Samples.always None) Samples.kept_as_bound
           Samples.placed_order Samples.empty_store) in
  let second :=
    upsertOrder (Samples.always None) Samples.kept_as_bound Samples.captured first in
  exists k row,
    parse "123e4567-e89b-12d3-a456-426614174000" = Returns k /\
    fst second = Returns Updated /\
    orders_ops (snd second) !! k = Some row /\
    Row.status row = JStr "CAPTURED" /\
    Row.created_ts row = 1700000000000%Z /\
    Row.updated_ts row = 1700000000001%Z.
Proof.
  intros first second.
  assert (Hk : parse_value (Order.orderId Samples.captured)
               = Returns (Buffer_from_hex "123e4567e89b12d3a456426614174000"))
    by (vm_compute; reflexivity).
  assert (Hf : fault (Samples.always None (issued first)) = None)
    by (vm_compute; reflexivity).
  destruct (upsertOrder_writes_one_row (Samples.always None) Samples.kept_as_bound
              Samples.captured _ first Hk Hf) as (Hres & Hrow & _).
  eexists _, _. split; [vm_compute; reflexivity|].
  split; [etransitivity; [exact Hres|vm_compute; reflexivity]|].
  split; [exact Hrow|]. repeat split; vm_compute; reflexivity.
Defined.

(** C10. [getOrderById] throws the invalid-identifier error, without sending
    anything to the store, on every string that is not 32 hex characters once
    its hyphens are removed and it is lower-cased; it returns [null] only for a
    well-formed identifier whose row is absent. *)
Theorem getOrderById_rejects_malformed
  (env : nat -> circumstances) (orderId : string) (w : world) :
  (~ is_32_hex (toLowerCase (remove_hyphens orderId)) ->
   getOrderById env (JStr orderId) w = (Throws (InvalidUUID orderId), w)) /\
  (fst (getOrderById env (JStr orderId) w) = Returns None ->
   is_32_hex (toLowerCase (remove_hyphens orderId)) /\
   exists k, parse orderId = Returns k /\ orders_ops w !! k = None).
Proof.
  rewrite <- test_hex32_spec.
  unfold getOrderById, bind, lift, query, select_by_order_id. cbn [parse_value].
  destruct (test_hex32 (toLowerCase (remove_hyphens orderId))) eqn:Ht.
  - rewrite (parse_returns _ Ht). split; [done|].
    intros Hnull. split; [done|]. eexists. split; [done|].
    destruct (fault (env (issued w))); [done|].
    by destruct (orders_ops w !! _).
  - rewrite (parse_throws _ Ht). by split.
Qed.

Lemma getOrderById_rejects_malformed_witness :
  getOrderById (Samples.always None) (JStr "not-a-uuid") Samples.empty_store
  = (Throws (InvalidUUID "not-a-uuid"), Samples.empty_store) /\
  exists k,
    parse "123e4567-e89b-12d3-a456-426614174000" = Returns k /\
    orders_ops Samples.empty_store !! k = None.
Proof.
  split.
  - apply (proj1 (getOrderById_rejects_malformed (Samples.always None) "not-a-uuid"
                    Samples.empty_store)).
    intros Hx%test_hex32_spec. vm_compute in Hx. discriminate Hx.
  - destruct (proj2 (getOrderById_rejects_malformed (Samples.always None)
                       "123e4567-e89b-12d3-a456-426614174000" Samples.empty_store))
      as (_ & k & Hk & Hnone); [vm_compute; reflexivity|].
    exists k. by split.
Defined.

(** * Further facts *)

(** ** More on the identifier codec *)

Lemma byte_prints_lower (b : byte) :
  is_hex_lower (hex_digit (Byte.to_N b / 16)) = true /\
  is_hex_lower (hex_digit (Byte.to_N b mod 16)) = true.
Proof. destruct b; split; vm_compute; reflexivity. Qed.

Lemma Buffer_toString_hex_length (buf : Buffer) :
  String.length (Buffer_toString_hex buf) = (2 * length buf)%nat.
Proof. induction buf as [|b buf IH]; simpl; [done|]. rewrite IH. lia. Qed.

Lemma Buffer_toString_hex_lower (buf : Buffer) :
  all_chars is_hex_lower (Buffer_toString_hex buf) = true.
Proof.
  induction buf as [|b buf IH]; [done|]. cbn [Buffer_toString_hex all_chars].
  destruct (byte_prints_lower b) as [-> ->]. by rewrite IH.
Qed.

Lemma Buffer_from_toString (buf : Buffer) :
  Buffer_from_hex (Buffer_toString_hex buf) = buf.
Proof.
  induction buf as [|b buf IH]; [done|]. cbn [Buffer_toString_hex Buffer_from_hex].
  destruct (byte_roundtrip b) as (-> & -> & ->). by rewrite IH.
Qed.

Lemma take_drop_chars n : forall s, take_chars n s +:+ drop_chars n s = s.
Proof.
  induction n as [|n IH]; intros [|c s]; try done.
  change (String c (take_chars n s +:+ drop_chars n s) = String c s). by rewrite IH.
Qed.

Lemma drop_drop_chars a : forall b s,
  drop_chars a (drop_chars b s) = drop_chars (b + a) s.
Proof.
  intros b. induction b as [|b IH]; intros s; [by destruct s, a|].
  destruct s as [|c s]; [by destruct a|]. apply IH.
Qed.

Lemma all_chars_take p n : forall s,
  all_chars p s = true -> all_chars p (take_chars n s) = true.
Proof.
  induction n as [|n IH]; intros [|c s]; simpl; try done.
  intros [-> Hs]%andb_true_iff. by apply IH.
Qed.

Lemma all_chars_drop p n : forall s,
  all_chars p s = true -> all_chars p (drop_chars n s) = true.
Proof.
  induction n as [|n IH]; intros [|c s]; simpl; try done.
  intros [_ Hs]%andb_true_iff. by apply IH.
Qed.

Lemma all_chars_impl (p q : ascii -> bool) s :
  (forall c, p c = true -> q c = true) ->
  all_chars p s = true -> all_chars q s = true.
Proof.
  intros Hpq. induction s as [|c s IH]; simpl; [done|].
  intros [Hc Hs]%andb_true_iff. by rewrite (Hpq c Hc), IH.
Qed.

Lemma toLowerCase_lower_hex s :
  all_chars is_hex_lower s = true -> toLowerCase s = s.
Proof.
  induction s as [|c s IH]; simpl; [done|].
  intros [Hc Hs]%andb_true_iff. by rewrite (hex_lower_fixed c Hc), IH.
Qed.

(** The five pieces [stringify] cuts are the whole string. *)
Lemma slices_partition h :
  slice 0 8 h +:+ slice 8 12 h +:+ slice 12 16 h +:+ slice 16 20 h +:+ slice_from 20 h
  = h.
Proof.
  unfold slice, slice_from. cbn [Nat.sub].
  change (drop_chars 0 h) with h.
  rewrite <- (take_drop_chars 8 h) at 6.
  rewrite <- (take_drop_chars 4 (drop_chars 8 h)) at 2.
  rewrite (drop_drop_chars 4 8 h). cbn [Nat.add].
  rewrite <- (take_drop_chars 4 (drop_chars 12 h)) at 2.
  rewrite (drop_drop_chars 4 12 h). cbn [Nat.add].
  rewrite <- (take_drop_chars 4 (drop_chars 16 h)) at 2.
  by rewrite (drop_drop_chars 4 16 h).
Qed.

Lemma remove_hyphens_stringify (buf : Buffer) :
  remove_hyphens (stringify buf) = Buffer_toString_hex buf.
Proof.
  unfold stringify. cbn zeta.
  pose proof (Buffer_toString_hex_lower buf) as Hh.
  set (h := Buffer_toString_hex buf) in *.
  assert (Hpiece : forall s, all_chars is_hex_lower s = true -> remove_hyphens s = s).
  { intros s Hs. apply remove_hyphens_hex.
    by apply (all_chars_impl is_hex_lower), Hs; apply hex_lower_is_digit. }
  rewrite !remove_hyphens_app.
  change (remove_hyphens "-") with EmptyString.
  unfold slice, slice_from.
  repeat (rewrite Hpiece
            by (repeat first [apply all_chars_take | apply all_chars_drop]; exact Hh)).
  cbn [String.append]. apply slices_partition.
Qed.

Lemma stringify_length (buf : Buffer) :
  String.length (stringify buf) = (2 * length buf + 4)%nat.
Proof.
  pose proof (f_equal String.length (slices_partition (Buffer_toString_hex buf))) as H.
  rewrite !string_length_app, Buffer_toString_hex_length in H.
  unfold stringify. cbn zeta. rewrite !string_length_app. cbn [String.length]. lia.
Qed.

Lemma stringify_canonical_16 (buf : Buffer) :
  length buf = 16%nat -> canonical_uuid (stringify buf) = true.
Proof.
  intros H16. unfold stringify. cbn zeta.
  pose proof (Buffer_toString_hex_lower buf) as Hh.
  pose proof (Buffer_toString_hex_length buf) as Hlen. rewrite H16 in Hlen.
  set (h := Buffer_toString_hex buf) in *. clearbody h.
  cbn [Nat.mul Nat.add] in Hlen.
  do 32 uncons Hlen. unnil Hlen.
  apply (all_chars_impl _ is_hex_digit) in Hh; [|apply hex_lower_is_digit].
  cbv [slice slice_from take_chars drop_chars Nat.sub].
  refine (canonical_join
            (String _ (String _ (String _ (String _ (String _ (String _
              (String _ (String _ EmptyString))))))))
            (String _ (String _ (String _ (String _ EmptyString))))
            (String _ (String _ (String _ (String _ EmptyString))))
            (String _ (String _ (String _ (String _ EmptyString))))
            (String _ (String _ (String _ (String _ (String _ (String _
              (String _ (String _ (String _ (String _ (String _ (String _
                EmptyString))))))))))))
            eq_refl eq_refl eq_refl eq_refl eq_refl Hh).
Qed.

Lemma stringify_lower_case (buf : Buffer) :
  toLowerCase (stringify buf) = stringify buf.
Proof.
  unfold stringify. cbn zeta.
  pose proof (Buffer_toString_hex_lower buf) as Hh.
  set (h := Buffer_toString_hex buf) in *.
  rewrite !toLowerCase_app. unfold slice, slice_from.
  change (toLowerCase "-") with "-".
  repeat (rewrite toLowerCase_lower_hex
            by (repeat first [apply all_chars_take | apply all_chars_drop]; exact Hh)).
  reflexivity.
Qed.

Lemma parse_stringify_16 (buf : Buffer) :
  length buf = 16%nat -> parse (stringify buf) = Returns buf.
Proof.
  intros H16. rewrite parse_returns; rewrite remove_hyphens_stringify,
    (toLowerCase_lower_hex _ (Buffer_toString_hex_lower buf)).
  - by rewrite Buffer_from_toString.
  - unfold test_hex32.
    by rewrite Buffer_toString_hex_length, Buffer_toString_hex_lower, H16.
Qed.

(** X1. [stringify] never throws; its result is in lower case and four characters
    longer than the hex digits of the buffer, and it is an 8-4-4-4-12
    identifier exactly when the buffer has 16 bytes. *)
Theorem stringify_canonical_iff_16_bytes (buf : Buffer) :
  (canonical_uuid (stringify buf) = true <-> length buf = 16%nat) /\
  toLowerCase (stringify buf) = stringify buf /\
  String.length (stringify buf) = (2 * length buf + 4)%nat.
Proof.
  split; [|split; [apply stringify_lower_case|apply stringify_length]].
  split; [|apply stringify_canonical_16].
  intros Hc. unfold canonical_uuid in Hc. rewrite !andb_true_iff in Hc.
  destruct Hc as [[[[[[[[[Hlen%Nat.eqb_eq _] _] _] _] _] _] _] _] _].
  rewrite stringify_length in Hlen. lia.
Qed.

(** X2. Decoding then encoding gives the buffer back when it has 16 bytes, and is
    rejected as an invalid identifier for every other length. *)
Theorem parse_stringify (buf : Buffer) :
  parse (stringify buf)
  = if (length buf =? 16)%nat then Returns buf
    else Throws (InvalidUUID (stringify buf)).
Proof.
  unfold parse. rewrite remove_hyphens_stringify.
  rewrite (toLowerCase_lower_hex _ (Buffer_toString_hex_lower buf)).
  unfold test_hex32.
  rewrite Buffer_toString_hex_length, Buffer_toString_hex_lower, andb_true_r.
  rewrite Buffer_from_toString.
  destruct (Nat.eqb_spec (length buf) 16) as [->|Hne]; [done|].
  destruct (Nat.eqb_spec (2 * length buf) 32); [lia|done].
Qed.

Lemma Buffer_from_hex_inj h h' :
  test_hex32 h = true -> test_hex32 h' = true ->
  Buffer_from_hex h = Buffer_from_hex h' -> h = h'.
Proof.
  intros [H _]%stringify_from_hex [H' _]%stringify_from_hex Heq. congruence.
Qed.

(** X3. Two spellings encode to the same key exactly when they agree once their
    hyphens are removed and they are lower-cased: distinct identifiers never
    share a key. *)
Theorem parse_same_key (s s' : string) (k k' : Buffer) :
  parse s = Returns k -> parse s' = Returns k' ->
  (k = k' <-> toLowerCase (remove_hyphens s) = toLowerCase (remove_hyphens s')).
Proof.
  unfold parse.
  destruct (test_hex32 (toLowerCase (remove_hyphens s))) eqn:Ht; [|done].
  destruct (test_hex32 (toLowerCase (remove_hyphens s'))) eqn:Ht'; [|done].
  cbn [negb]. intros [= <-] [= <-]. split.
  - by apply Buffer_from_hex_inj.
  - by intros ->.
Qed.

Lemma parse_same_key_witness :
  exists k k',
    parse "123E4567-E89B-12D3-A456-426614174000" = Returns k /\
    parse "123e4567e89b12d3a456426614174000" = Returns k' /\ k = k'.
Proof.
  eexists _, _. split; [vm_compute; reflexivity|]. split; [vm_compute; reflexivity|].
  apply (proj2 (parse_same_key "123E4567-E89B-12D3-A456-426614174000"
                  "123e4567e89b12d3a456426614174000" _ _
                  ltac:(vm_compute; reflexivity) ltac:(vm_compute; reflexivity))).
  vm_compute. reflexivity.
Defined.

Lemma parse_length (s : string) (k : Buffer) :
  parse s = Returns k -> length k = 16%nat.
Proof.
  unfold parse.
  destruct (test_hex32 (toLowerCase (remove_hyphens s))) eqn:Ht; [|done].
  cbn [negb]. intros [= <-]. by destruct (stringify_from_hex _ Ht).
Qed.

(** X4. Whatever spelling [parse] accepts, [stringify] gives the key back in the
    8-4-4-4-12 lower-case form of the same digits. *)
Theorem stringify_parse_normalizes (s : string) (k : Buffer) :
  parse s = Returns k ->
  canonical_uuid (stringify k) = true /\
  remove_hyphens (stringify k) = toLowerCase (remove_hyphens s).
Proof.
  unfold parse.
  destruct (test_hex32 (toLowerCase (remove_hyphens s))) eqn:Ht; [|done].
  cbn [negb]. intros [= <-].
  destruct (stringify_from_hex _ Ht) as [Hhex Hlen]. split.
  - by apply stringify_canonical_16.
  - by rewrite remove_hyphens_stringify.
Qed.

Lemma stringify_parse_normalizes_witness :
  exists k,
    parse "123E4567e89b-12D3a456-426614174000" = Returns k /\
    stringify k = "123e4567-e89b-12d3-a456-426614174000".
Proof.
  eexists. split; [vm_compute; reflexivity|].
  destruct (stringify_parse_normalizes "123E4567e89b-12D3a456-426614174000" _
              ltac:(vm_compute; reflexivity)) as [_ _].
  vm_compute. reflexivity.
Defined.

(** ** More on the store gateway *)

Lemma truthy_flag (b : bool) : truthy (if b then 1 else 0) = b.
Proof. by destruct b. Qed.

Section StoreFacts.

Variable env : nat -> circumstances.
Variable kept : Column.t -> value -> value.


Lemma upsertOrder_table order k w :
  parse_value (Order.orderId order) = Returns k ->
  fault (env (issued w)) = None ->
  snd (upsertOrder env kept order w)
  = {| orders_ops :=
         <[k := written_row kept order (at_time (env (issued w))) (orders_ops w !! k)]>
           (orders_ops w);
       issued := S (issued w);
       trace := trace w |} /\
  fst (upsertOrder env kept order w)
  = Returns (match orders_ops w !! k with Some _ => Updated | None => Inserted end).
Proof.
  intros Hk Hf. rewrite (upsertOrder_written env kept order k w Hk Hf). cbn zeta.
  unfold insert_on_duplicate_key_update, written_row.
  by destruct (orders_ops w !! k).
Qed.


Lemma getOrderById_found (id : string) k row w :
  parse id = Returns k ->
  fault (env (issued w)) = None ->
  orders_ops w !! k = Some row ->
  getOrderById env (JStr id) w = (Returns (Some (normalize (k, row))), sent w).
Proof.
  intros Hk Hf Hrow.
  unfold getOrderById, bind, lift, query, select_by_order_id. cbn [parse_value].
  rewrite Hk, Hf, Hrow. by destruct w.
Qed.

End StoreFacts.

(** X5. Read your write: after an apply that reached the store, [getOrderById]
    with any spelling of the same identifier returns the record of the row
    just written, under the lower-case 8-4-4-4-12 name of its key. *)
Theorem getOrderById_after_upsertOrder
  (env : nat -> circumstances) (kept : Column.t -> value -> value)
  (order : Order.t) (id : string) (k : Buffer) (w : world) :
  parse_value (Order.orderId order) = Returns k ->
  parse id = Returns k ->
  fault (env (issued w)) = None ->
  fault (env (S (issued w))) = None ->
  fst (getOrderById env (JStr id) (snd (upsertOrder env kept order w)))
  = Returns (Some
      {| OrderRecord.orderId := stringify k;
         OrderRecord.partnerId := kept Column.partner_id (Order.partnerId order);
         OrderRecord.status := kept Column.status (Order.status order);
         OrderRecord.totalAmount := kept Column.total_amount (Order.totalAmount order);
         OrderRecord.currency :=
           kept Column.currency (default (Order.currency order) (JStr "USD"));
         OrderRecord.createdTs :=
           match orders_ops w !! k with
           | None => at_time (env (issued w))
           | Some old => Row.created_ts old
           end;
         OrderRecord.updatedTs := at_time (env (issued w));
         OrderRecord.isDeleted :=
           ToBoolean (default (Order.isDeleted order) (JBool false)) |}) /\
  canonical_uuid (stringify k) = true.
Proof.
  intros Hk Hid Hf Hf'.
  destruct (upsertOrder_table env kept order k w Hk Hf) as [-> _].
  split.
  - erewrite getOrderById_found; [|exact Hid|exact Hf'|apply lookup_insert_eq].
    cbn [fst]. unfold normalize, written_row. cbn [fst snd Row.partner_id Row.status
      Row.total_amount Row.currency Row.is_deleted Row.created_ts Row.updated_ts].
    by rewrite truthy_flag.
  - by apply stringify_canonical_16, (parse_length id).
Qed.

Lemma getOrderById_after_upsertOrder_witness :
  exists found,
    fst (getOrderById (Samples.always None) (JStr "123e4567e89b12d3a456426614174000")
           (snd (upsertOrder (Samples.always None) Samples.kept_as_bound
                   Samples.captured Samples.empty_store)))
    = Returns (Some found) /\
    OrderRecord.orderId found = "123e4567-e89b-12d3-a456-426614174000" /\
    OrderRecord.status found = JStr "CAPTURED" /\
    OrderRecord.currency found = JStr "USD" /\
    OrderRecord.isDeleted found = false.
Proof.
  destruct (getOrderById_after_upsertOrder (Samples.always None) Samples.kept_as_bound
              Samples.captured "123e4567e89b12d3a456426614174000"
              (Buffer_from_hex "123e4567e89b12d3a456426614174000") Samples.empty_store
              ltac:(vm_compute; reflexivity) ltac:(vm_compute; reflexivity)
              ltac:(vm_compute; reflexivity) ltac:(vm_compute; reflexivity))
    as [Hget _].
  eexists. split; [exact Hget|]. repeat split; vm_compute; reflexivity.
Defined.

(** X6. Applying twice under the same key: the second apply updates, adds no row,
    keeps [created_ts] of the first and leaves nothing else of it; applying
    the same order again changes [updated_ts] only. *)
Theorem upsertOrder_twice
  (env : nat -> circumstances) (kept : Column.t -> value -> value)
  (first second : Order.t) (k : Buffer) (w : world) :
  parse_value (Order.orderId first) = Returns k ->
  parse_value (Order.orderId second) = Returns k ->
  fault (env (issued w)) = None ->
  fault (env (S (issued w))) = None ->
  let w1 := snd (upsertOrder env kept first w) in
  let applied := upsertOrder env kept second w1 in
  fst applied = Returns Updated /\
  dom (orders_ops (snd applied)) = dom (orders_ops w1) /\
  exists r1,
    orders_ops w1 !! k = Some r1 /\
    orders_ops (snd applied) !! k
    = Some (written_row kept second (at_time (env (S (issued w)))) (Some r1)) /\
    (first = second ->
     orders_ops (snd applied) !! k
     = Some {| Row.partner_id := Row.partner_id r1;
               Row.status := Row.status r1;
               Row.total_amount := Row.total_amount r1;
               Row.currency := Row.currency r1;
               Row.is_deleted := Row.is_deleted r1;
               Row.created_ts := Row.created_ts r1;
               Row.updated_ts := at_time (env (S (issued w))) |}).
Proof.
  intros Hk1 Hk2 Hf1 Hf2 w1 applied. subst w1 applied.
  destruct (upsertOrder_table env kept first k w Hk1 Hf1) as [-> _].
  set (r1 := written_row kept first (at_time (env (issued w))) (orders_ops w !! k)).
  set (w1 := {| orders_ops := <[k:=r1]> (orders_ops w); issued := S (issued w);
                trace := trace w |}).
  destruct (upsertOrder_table env kept second k w1 Hk2 Hf2) as [-> ->].
  cbn [orders_ops issued w1]. rewrite !lookup_insert_eq.
  split; [done|]. split.
  - by rewrite insert_insert_eq, !dom_insert_L.
  - exists r1. split; [done|]. split; [done|]. by intros <-.
Qed.

Lemma upsertOrder_twice_witness :
  let w1 := snd (upsertOrder (Samples.always None) Samples.kept_as_bound
                   Samples.placed_order Samples.empty_store) in
  let applied :=
    upsertOrder (Samples.always None) Samples.kept_as_bound Samples.captured w1 in
  fst applied = Returns Updated /\
  size (orders_ops (snd applied)) = 1%nat.
Proof.
  intros w1 applied.
  destruct (upsertOrder_twice (Samples.always None) Samples.kept_as_bound
              Samples.placed_order Samples.captured
              (Buffer_from_hex "123e4567e89b12d3a456426614174000") Samples.empty_store
              ltac:(vm_compute; reflexivity) ltac:(vm_compute; reflexivity)
              ltac:(vm_compute; reflexivity) ltac:(vm_compute; reflexivity))
    as (Hres & _).
  split; [exact Hres|]. vm_compute. reflexivity.
Defined.

(** ** More on the handler *)

Section OutcomeFacts.

Variable env : nat -> circumstances.
Variable kept : Column.t -> value -> value.

Lemma apply_once_table order k n w :
  parse_value (Order.orderId order) = Returns k ->
  fault (env (issued w)) = None ->
  apply_once env kept order n w
  = (Returns tt,
     {| orders_ops :=
          <[k := written_row kept order (at_time (env (issued w))) (orders_ops w !! k)]>
            (orders_ops w);
        issued := S (issued w);
        trace := trace w |}).
Proof.
  intros Hk Hf. unfold apply_once, try_catch, bind.
  destruct (upsertOrder_table env kept order k w Hk Hf) as [Hw Hr].
  destruct (upsertOrder env kept order w) as [r w']. cbn [fst snd] in Hw, Hr.
  by rewrite Hr, Hw.
Qed.


Lemma attempts_outcome order : forall ws n w,
  outcome_of env kept order ws w (attempts (apply_once env kept order) onFailedAttempt n ws w).
Proof.
  induction ws as [|d ws IH]; intros n w; cbn [attempts];
    (destruct (parse_value (Order.orderId order)) as [k|e] eqn:Hk;
     [|by rewrite (apply_once_invalid env kept order e n _ Hk)]);
    (destruct (fault (env (issued w))) as [e|] eqn:Hf;
     [|rewrite (apply_once_table order k n (record (Attempt n) w) Hk Hf);
       unfold outcome_of; cbn [fst snd orders_ops issued record];
       exists k, 0%nat; rewrite Nat.add_0_r; repeat split; try done; lia]);
    (destruct (isRetryable e) eqn:Hr;
     [|by rewrite (apply_once_permanent env kept order k e n (record (Attempt n) w) Hk Hf Hr)]);
    rewrite (apply_once_retryable env kept order k e n (record (Attempt n) w) Hk Hf Hr);
    destruct (retryable_is_store_error e Hr) as (c & x & ->); cbn iota zeta.
  - done.
  - set (w2 := record (Slept d) _).
    specialize (IH (S n) w2). unfold outcome_of in *.
    destruct (fst (attempts _ _ _ _ w2)); [|exact IH].
    destruct IH as (k' & j & Hk' & Hj & Hfj & Ht & Hi).
    exists k', (S j). cbn [length]. rewrite Nat.add_succ_r.
    repeat split; try done; lia.
Qed.

End OutcomeFacts.


Lemma attempts_returns input n ws w w1 :
  input n (record (Attempt n) w) = (Returns tt, w1) ->
  attempts input onFailedAttempt n ws w = (Returns tt, w1).
Proof. intros H. destruct ws; cbn [attempts]; by rewrite H. Qed.

Lemma order_of_object (ms : list (string * value)) :
  order_of (JObj ms)
  = Returns {| Order.orderId := member "orderId" ms;
               Order.partnerId := member "partnerId" ms;
               Order.status := member "status" ms;
               Order.totalAmount := member "totalAmount" ms;
               Order.currency := nullish_or (member "currency" ms) (JStr "USD");
               Order.isDeleted := JBool (ToBoolean (member "isDeleted" ms)) |}.
Proof. reflexivity. Qed.

Lemma default_nullish_or (v : value) :
  default (nullish_or v (JStr "USD")) (JStr "USD") = nullish_or v (JStr "USD").
Proof. by destruct v. Qed.

(** X8. Retry then success: when the store rejects the first [m] statements of a
    message (at most two) with retryable errors and executes the next, the
    handler returns, the offset is committed, and the row holds the members
    of the payload, [currency] defaulting to "USD" and [isDeleted] to 0. *)
Theorem eachMessage_succeeds_after_retries
  (env : nat -> circumstances) (kept : Column.t -> value -> value)
  (ms : list (string * value)) (id : string) (k : Buffer) (w : world) (m : nat) :
  member "orderId" ms = JStr id ->
  parse id = Returns k ->
  (m <= 2)%nat ->
  (forall j, (j < m)%nat ->
     exists t, fault (env (issued w + j)) = Some t /\ classify t = Retryable) ->
  fault (env (issued w + m)) = None ->
  let handled := eachMessage env kept (Returns (JObj ms)) w in
  let now := at_time (env (issued w + m)) in
  fst handled = Returns tt /\
  offset_committed (fst handled) = true /\
  orders_ops (snd handled)
  = <[k := {| Row.partner_id := kept Column.partner_id (member "partnerId" ms);
              Row.status := kept Column.status (member "status" ms);
              Row.total_amount := kept Column.total_amount (member "totalAmount" ms);
              Row.currency :=
                kept Column.currency (nullish_or (member "currency" ms) (JStr "USD"));
              Row.is_deleted := if ToBoolean (member "isDeleted" ms) then 1%Z else 0%Z;
              Row.created_ts :=
                match orders_ops w !! k with
                | None => now
                | Some old => Row.created_ts old
                end;
              Row.updated_ts := now |}]> (orders_ops w) /\
  issued (snd handled) = (issued w + m + 1)%nat /\
  exists tr,
    trace (snd handled) = trace w ++ tr /\
    count_attempts tr = (m + 1)%nat /\
    waits tr = take m [2000; 4000]%Z.
Proof.
  intros Hid Hk Hm Hfaults Hf. cbn zeta.
  rewrite (eachMessage_decoded env kept _ _ w (order_of_object ms)).
  set (order := {| Order.orderId := member "orderId" ms |}).
  assert (Hk' : parse_value (Order.orderId order) = Returns k).
  { cbn [order Order.orderId]. by rewrite Hid. }
  destruct (attempts_skip_retryable env kept order k m [2000; 4000]%Z 1 w Hk' Hm Hfaults)
    as (w' & tr & -> & Ht & Hi & Htr & Hc & Hw).
  rewrite <- Hi in Hf.
  rewrite (attempts_returns _ _ _ _ _
             (apply_once_table env kept order k (1 + m) (record (Attempt (1 + m)) w') Hk' Hf)).
  cbn [fst snd offset_committed orders_ops issued trace record].
  rewrite Ht, Hi, Htr. unfold written_row. cbn [order Order.partnerId Order.status
    Order.totalAmount Order.currency Order.isDeleted default].
  rewrite default_nullish_or.
  repeat split; try done; [lia|].
  exists (tr ++ [Attempt (1 + m)]). rewrite <- app_assoc.
  rewrite count_attempts_app, waits_app, Hc, Hw, app_nil_r. by cbn.
Qed.

Lemma eachMessage_succeeds_after_retries_witness :
  let handled :=
    eachMessage (outage 2) Samples.kept_as_bound (Returns Samples.placed)
      Samples.empty_store in
  fst handled = Returns tt /\
  issued (snd handled) = 3%nat /\
  size (orders_ops (snd handled)) = 1%nat /\
  waits (trace (snd handled)) = [2000; 4000]%Z.
Proof.
  destruct (eachMessage_succeeds_after_retries (outage 2) Samples.kept_as_bound
              [("orderId", JStr "123e4567-e89b-12d3-a456-426614174000");
               ("partnerId", JStr "p-1001"); ("status", JStr "PLACED");
               ("totalAmount", JNum 0x4039fd70a3d70a3d); ("currency", JStr "USD");
               ("isDeleted", JBool false)]
              "123e4567-e89b-12d3-a456-426614174000"
              (Buffer_from_hex "123e4567e89b12d3a456426614174000")
              Samples.empty_store 2
              ltac:(vm_compute; reflexivity) ltac:(vm_compute; reflexivity))
    as (Hr & _ & _ & Hi & _).
  - lia.
  - intros j Hj. exists Samples.connection_refused.
    destruct j as [|[|j]]; [split; vm_compute; reflexivity.. | lia].
  - vm_compute. reflexivity.
  - cbn zeta. split; [exact Hr|]. split; [exact Hi|]. split; vm_compute; reflexivity.
Defined.

Section StatementCount.

Variable env : nat -> circumstances.
Variable kept : Column.t -> value -> value.

(** An attempt sends one statement, or none when [parse] rejects the
    identifier. *)
Lemma apply_once_issued order n w :
  (issued w <= issued (snd (apply_once env kept order n w)) <= S (issued w))%nat.
Proof.
  destruct (parse_value (Order.orderId order)) as [k|e] eqn:Hk.
  - destruct (fault (env (issued w))) as [e|] eqn:He.
    + destruct (isRetryable e) eqn:Hr.
      * rewrite (apply_once_retryable _ _ _ _ _ n w Hk He Hr). cbn. lia.
      * rewrite (apply_once_permanent _ _ _ _ _ n w Hk He Hr). cbn. lia.
    + destruct (apply_once_written env kept order k n w Hk He) as [t ->]. cbn. lia.
  - rewrite (apply_once_invalid _ _ _ _ n w Hk). cbn. lia.
Qed.

Lemma attempts_issued order : forall ws n w,
  (issued w
   <= issued (snd (attempts (apply_once env kept order) onFailedAttempt n ws w))
   <= issued w + S (length ws))%nat.
Proof.
  induction ws as [|d ws IH]; intros n w; cbn [attempts];
    pose proof (apply_once_issued order n (record (Attempt n) w)) as H1;
    destruct (apply_once env kept order n (record (Attempt n) w)) as [[[]|e] w1];
    cbn [snd record issued length] in *; try lia.
  - destruct e; cbn; lia.
  - specialize (IH (S n) (record (Slept d) (onFailedAttempt e n (S (length ws)) w1))).
    destruct e; cbn [snd record issued onFailedAttempt] in *; lia.
Qed.

End StatementCount.

(** X9. Whatever the message and whatever the store does, the handler sends at
    most three statements. *)
Theorem eachMessage_sends_at_most_three_statements
  (env : nat -> circumstances) (kept : Column.t -> value -> value)
  (parsed : completion value) (w : world) :
  (issued w <= issued (snd (eachMessage env kept parsed w)) <= issued w + 3)%nat.
Proof.
  destruct parsed as [payload|e]; [|cbn; lia].
  destruct (order_of payload) as [order|e] eqn:Ho.
  - rewrite (eachMessage_decoded env kept payload order w Ho).
    apply (attempts_issued env kept order [2000; 4000]%Z 1 w).
  - unfold eachMessage, bind, lift. rewrite Ho. cbn. lia.
Qed.

Section RejectionFacts.

Variable env : nat -> circumstances.
Variable kept : Column.t -> value -> value.

(** A run of the executor over [apply_once] stops at the first statement
    the store executes, and throws only when every statement it sent was
    rejected. *)
Lemma attempts_rejections order : forall ws n w,
  let r := attempts (apply_once env kept order) onFailedAttempt n ws w in
  match fst r with
  | Throws _ =>
      forall j, (j < issued (snd r) - issued w)%nat ->
                fault (env (issued w + j)) <> None
  | Returns _ =>
      exists j,
        (j <= length ws)%nat /\
        issued (snd r) = (issued w + j + 1)%nat /\
        fault (env (issued w + j)) = None /\
        forall i, (i < j)%nat ->
          exists t, fault (env (issued w + i)) = Some t /\ classify t = Retryable
  end.
Proof.
  induction ws as [|d ws IH]; intros n w; cbn zeta; cbn [attempts];
    (destruct (parse_value (Order.orderId order)) as [k|e] eqn:Hk;
     [|rewrite (apply_once_invalid env kept order e n _ Hk); cbn; intros j Hj; lia]);
    (destruct (fault (env (issued w))) as [e|] eqn:Hf;
     [|destruct (apply_once_written env kept order k n (record (Attempt n) w) Hk Hf)
         as [t ->]; cbn [fst snd issued sent with_table record];
       exists 0%nat; rewrite Nat.add_0_r; repeat split; [lia..|done|intros i Hi; lia]]);
    (destruct (isRetryable e) eqn:Hr;
     [|rewrite (apply_once_permanent env kept order k e n (record (Attempt n) w) Hk Hf Hr);
       cbn; intros j Hj; assert (j = 0)%nat as -> by lia;
       rewrite Nat.add_0_r, Hf; done]);
    rewrite (apply_once_retryable env kept order k e n (record (Attempt n) w) Hk Hf Hr);
    destruct (retryable_is_store_error e Hr) as (c & x & ->); cbn iota zeta.
  - cbn. intros j Hj. assert (j = 0)%nat as -> by lia. by rewrite Nat.add_0_r, Hf.
  - set (w2 := record (Slept d) _).
    assert (Hw2 : issued w2 = S (issued w)) by reflexivity.
    pose proof (attempts_issued env kept order ws (S n) w2) as Hbound.
    specialize (IH (S n) w2). cbn zeta in IH.
    destruct (attempts _ _ _ _ w2) as [[[]|e'] w']; cbn [fst snd] in *.
    + destruct IH as (j & Hj & Hi & Hfj & Hbefore).
      exists (S j). rewrite Hw2 in *. cbn [length].
      replace (issued w + S j)%nat with (S (issued w) + j)%nat by lia.
      repeat split; [lia | lia | exact Hfj |].
      intros [|i] Hlt.
      * exists (StoreError c x). rewrite Nat.add_0_r.
        split; [done|]. by apply classify_Retryable.
      * destruct (Hbefore i ltac:(lia)) as (t & Ht & Hc).
        exists t. replace (issued w + S i)%nat with (S (issued w) + i)%nat by lia.
        split; [exact Ht | exact Hc].
    + intros [|j] Hj.
      * by rewrite Nat.add_0_r, Hf.
      * replace (issued w + S j)%nat with (S (issued w) + j)%nat by lia.
        rewrite Hw2 in *.
        assert (Hlt : (j < issued w' - S (issued w))%nat) by lia.
        exact (IH j Hlt).
Qed.

End RejectionFacts.

(** X7. The handler returns exactly when the store executes one of its at
    most three statements: it sends nothing after the executed statement, the
    statements before it were rejected with retryable errors, and the offset
    is committed; when the handler throws, the offset is not committed and
    every statement it sent was rejected. *)
Theorem eachMessage_returns_iff_statement_executed
  (env : nat -> circumstances) (kept : Column.t -> value -> value)
  (parsed : completion value) (w : world) :
  let handled := eachMessage env kept parsed w in
  match fst handled with
  | Throws _ =>
      offset_committed (fst handled) = false /\
      forall j, (j < issued (snd handled) - issued w)%nat ->
                fault (env (issued w + j)) <> None
  | Returns _ =>
      offset_committed (fst handled) = true /\
      exists j,
        (j <= 2)%nat /\
        issued (snd handled) = (issued w + j + 1)%nat /\
        fault (env (issued w + j)) = None /\
        forall i, (i < j)%nat ->
          exists t, fault (env (issued w + i)) = Some t /\ classify t = Retryable
  end.
Proof.
  cbn zeta. destruct parsed as [payload|e].
  - destruct (order_of payload) as [order|e] eqn:Ho.
    + rewrite (eachMessage_decoded env kept payload order w Ho).
      pose proof (attempts_rejections env kept order [2000; 4000]%Z 1 w) as Hout.
      cbn zeta in Hout.
      destruct (attempts _ _ _ _ w) as [[[]|e] w']; cbn [fst snd] in *; by split.
    + unfold eachMessage, bind, lift. rewrite Ho. cbn.
      split; [done|]. intros j Hj. lia.
  - cbn. split; [done|]. intros j Hj. lia.
Qed.

(** ** More on the readers *)


Lemma insert_desc_sorted x l :
  StronglySorted newer_first l -> StronglySorted newer_first (insert_desc x l).
Proof.
  induction l as [|y l IH]; intros Hl; cbn [insert_desc].
  - constructor; [constructor|done].
  - apply StronglySorted_inv in Hl as [Hl Hy].
    destruct (Z.leb_spec (Row.created_ts (snd y)) (Row.created_ts (snd x))) as [Hle|Hgt].
    + constructor; [by constructor|].
      constructor; [done|].
      eapply Forall_impl; [exact Hy|]. unfold newer_first. intros z Hz. lia.
    + constructor; [by apply IH|].
      rewrite insert_desc_perm. constructor; [|done]. unfold newer_first. lia.
Qed.

Lemma order_by_created_ts_desc_sorted l :
  StronglySorted newer_first (order_by_created_ts_desc l).
Proof.
  induction l as [|x l IH]; [constructor|].
  by apply insert_desc_sorted.
Qed.

Lemma normalize_sorted rows :
  StronglySorted newer_first rows ->
  StronglySorted newer_record_first (map normalize rows).
Proof.
  induction 1 as [|r rows Hs IH Hr]; cbn [map]; constructor; [done|].
  apply Forall_map. by eapply Forall_impl; [exact Hr|].
Qed.

Lemma stringify_inj_16 (k k' : Buffer) :
  length k = 16%nat -> length k' = 16%nat -> stringify k = stringify k' -> k = k'.
Proof.
  intros Hk Hk' Heq.
  pose proof (parse_stringify_16 k Hk) as H.
  rewrite Heq, (parse_stringify_16 k' Hk') in H. by injection H.
Qed.

Section ReaderFacts.

Variable env : nat -> circumstances.
Variable sql_eq : value -> value -> bool.

Lemma listByPartner_rows (partnerId : value) (w : world) :
  fault (env (issued w)) = None ->
  listByPartner env sql_eq partnerId w
  = (Returns
       (map normalize
          (order_by_created_ts_desc
             (filter (fun kr => sql_eq (Row.partner_id (snd kr)) partnerId = true)
                (map_to_list (orders_ops w))))),
     sent w).
Proof.
  intros Hf. unfold listByPartner, bind, query, select_by_partner_id, ret.
  rewrite Hf. by destruct w.
Qed.

Lemma selected_rows_in_table (partnerId : value) (t : gmap Buffer Row.t)
  (k : Buffer) (row : Row.t) :
  (k, row) ∈ order_by_created_ts_desc
               (filter (fun kr => sql_eq (Row.partner_id (snd kr)) partnerId = true)
                  (map_to_list t)) ->
  t !! k = Some row.
Proof.
  rewrite order_by_created_ts_desc_perm, list_elem_of_filter, elem_of_map_to_list.
  tauto.
Qed.

End ReaderFacts.

(** X10. [listByPartner] lists newest first, and, when every key of the table has
    16 bytes, no identifier twice. *)
Theorem listByPartner_sorted_distinct
  (env : nat -> circumstances) (sql_eq : value -> value -> bool)
  (partnerId : value) (w : world) :
  fault (env (issued w)) = None ->
  exists records,
    fst (listByPartner env sql_eq partnerId w) = Returns records /\
    StronglySorted newer_record_first records /\
    (keys_are_16_bytes (orders_ops w) -> NoDup (map OrderRecord.orderId records)).
Proof.
  intros Hf. rewrite (listByPartner_rows env sql_eq partnerId w Hf).
  eexists. split; [done|]. split.
  - apply normalize_sorted, order_by_created_ts_desc_sorted.
  - intros Hkeys.
    set (rows := order_by_created_ts_desc _).
    assert (Hrows : NoDup (rows.*1)).
    { unfold rows. rewrite order_by_created_ts_desc_perm.
      apply NoDup_fmap_fst.
      - intros k r1 r2 H1%list_elem_of_filter H2%list_elem_of_filter.
        destruct H1 as [_ H1%elem_of_map_to_list], H2 as [_ H2%elem_of_map_to_list].
        congruence.
      - apply NoDup_filter, NoDup_map_to_list. }
    change (map OrderRecord.orderId (map normalize rows))
      with (OrderRecord.orderId <$> (normalize <$> rows)).
    rewrite <- list_fmap_compose.
    change (OrderRecord.orderId ∘ normalize) with (stringify ∘ (fst : Buffer * Row.t -> Buffer)).
    rewrite list_fmap_compose.
    apply NoDup_fmap_2_strong; [|done].
    intros k k' [[k0 r] [-> Hin]]%list_elem_of_fmap [[k1 r'] [-> Hin']]%list_elem_of_fmap.
    apply stringify_inj_16.
    + by apply (Hkeys _ r), (selected_rows_in_table sql_eq partnerId).
    + by apply (Hkeys _ r'), (selected_rows_in_table sql_eq partnerId).
Qed.


Lemma listByPartner_sorted_distinct_witness :
  exists newer older,
    fst (listByPartner (Samples.always None) Samples.same_string (JStr "p-1001")
           two_orders) = Returns [newer; older] /\
    OrderRecord.orderId newer = "00000000-0000-4000-8000-000000000001" /\
    OrderRecord.orderId older = "123e4567-e89b-12d3-a456-426614174000" /\
    newer_record_first newer older.
Proof.
  destruct (listByPartner_sorted_distinct (Samples.always None) Samples.same_string
              (JStr "p-1001") two_orders ltac:(vm_compute; reflexivity))
    as (records & Hl & Hs & _).
  vm_compute in Hl. injection Hl as <-.
  eexists _, _. split; [vm_compute; reflexivity|].
  split; [reflexivity|]. split; [reflexivity|].
  apply StronglySorted_inv in Hs as [_ Hs]. by apply Forall_cons in Hs as [Hs _].
Defined.

(** X11. The handler keeps every key of the table 16 bytes long, whatever the
    message and whatever the store does. *)
Theorem eachMessage_keeps_keys_16_bytes
  (env : nat -> circumstances) (kept : Column.t -> value -> value)
  (parsed : completion value) (w : world) :
  keys_are_16_bytes (orders_ops w) ->
  keys_are_16_bytes (orders_ops (snd (eachMessage env kept parsed w))).
Proof.
  intros Hkeys. destruct parsed as [payload|e]; [|done].
  destruct (order_of payload) as [order|e] eqn:Ho.
  - rewrite (eachMessage_decoded env kept payload order w Ho).
    pose proof (attempts_outcome env kept order [2000; 4000]%Z 1 w) as Hout.
    unfold outcome_of in Hout.
    destruct (attempts _ _ _ _ w) as [[[]|e] w']; cbn [fst snd] in *;
      [|by rewrite Hout].
    destruct Hout as (k & j & Hk & _ & _ & -> & _).
    intros k' r. destruct (decide (k' = k)) as [->|Hne].
    + intros _. destruct (Order.orderId order) as [| | | |s| |]; try done.
      by apply (parse_length s).
    + rewrite lookup_insert_ne by done. apply Hkeys.
  - unfold eachMessage, bind, lift. by rewrite Ho.
Qed.

Lemma eachMessage_keeps_keys_16_bytes_witness :
  keys_are_16_bytes
    (orders_ops (snd (eachMessage (Samples.always None) Samples.kept_as_bound
                        (Returns Samples.placed) Samples.empty_store))).
Proof.
  apply eachMessage_keeps_keys_16_bytes.
  intros k r Hk. vm_compute in Hk. discriminate Hk.
Defined.

(** X12. What [listByPartner] lists can be read back: in a table whose keys have
    16 bytes, [getOrderById] on the identifier of a listed record returns that
    record. *)
Theorem listByPartner_then_getOrderById
  (env : nat -> circumstances) (sql_eq : value -> value -> bool)
  (partnerId : value) (w : world) :
  keys_are_16_bytes (orders_ops w) ->
  fault (env (issued w)) = None ->
  fault (env (S (issued w))) = None ->
  let listed := listByPartner env sql_eq partnerId w in
  exists records,
    fst listed = Returns records /\
    forall r, r ∈ records ->
      fst (getOrderById env (JStr (OrderRecord.orderId r)) (snd listed))
      = Returns (Some r).
Proof.
  intros Hkeys Hf Hf'. cbn zeta.
  rewrite (listByPartner_rows env sql_eq partnerId w Hf).
  eexists. split; [done|].
  intros r [[k row] [-> Hin]]%list_elem_of_fmap.
  apply selected_rows_in_table in Hin.
  cbn [snd normalize OrderRecord.orderId fst].
  by rewrite (getOrderById_found env (stringify k) k row (sent w)
                (parse_stringify_16 k (Hkeys k row Hin)) Hf' Hin).
Qed.

Lemma listByPartner_then_getOrderById_witness :
  exists records,
    fst (listByPartner (Samples.always None) Samples.same_string (JStr "p-1001")
           two_orders) = Returns records /\
    length records = 2%nat /\
    forall r, r ∈ records ->
      fst (getOrderById (Samples.always None) (JStr (OrderRecord.orderId r))
             (snd (listByPartner (Samples.always None) Samples.same_string
                     (JStr "p-1001") two_orders)))
      = Returns (Some r).
Proof.
  destruct (listByPartner_then_getOrderById (Samples.always None) Samples.same_string
              (JStr "p-1001") two_orders) as (records & Hl & Hget).
  - intros k r Hk.
    destruct (decide (k = Buffer_from_hex "00000000000040008000000000000001")) as [->|H1];
      [done|].
    destruct (decide (k = Buffer_from_hex "123e4567e89b12d3a456426614174000")) as [->|H2];
      [done|].
    unfold two_orders in Hk.
    rewrite (upsertOrder_written_elsewhere _ _ other_order
               (Buffer_from_hex "00000000000040008000000000000001") _ k
               ltac:(vm_compute; reflexivity) H1) in Hk.
    rewrite (upsertOrder_written_elsewhere _ _ Samples.placed_order
               (Buffer_from_hex "123e4567e89b12d3a456426614174000") _ k
               ltac:(vm_compute; reflexivity) H2) in Hk.
    unfold Samples.empty_store in Hk. cbn [orders_ops] in Hk.
    by rewrite lookup_empty in Hk.
  - vm_compute. reflexivity.
  - vm_compute. reflexivity.
  - exists records. split; [exact Hl|]. split; [|exact Hget].
    vm_compute in Hl. by injection Hl as <-.
Defined.

(** ** The connection pool *)

Lemma getPool_each_made (p : Pool.options) (envs : list (gmap string string)) :
  Pool.getPool_each envs (Some p) = (replicate (length envs) p, Some p).
Proof. induction envs as [|e envs IH]; [done|]. cbn. by rewrite IH. Qed.

(** X13. The pool is made once: however the environment changes between calls,
    every call returns the pool made from the environment of the first. *)
Theorem getPool_is_made_once
  (first : gmap string string) (later : list (gmap string string)) :
  Pool.getPool_each (first :: later) None
  = (replicate (S (length later)) (Pool.createPool_options first),
     Some (Pool.createPool_options first)).
Proof. cbn. by rewrite getPool_each_made. Qed.

(** ** Kafka clients *)

Section ClientFacts.

Variable net : nat -> option error.
Variable JSON_stringify : value -> string.
Variable topic : string.
Variable groupId : string.

Lemma request_carried_out {A} what (answer : Kafka.cluster -> A * Kafka.cluster) c :
  net (length (Kafka.calls c)) = None ->
  Kafka.request net what answer c
  = (Returns (fst (answer (Kafka.called what c))), snd (answer (Kafka.called what c))).
Proof. intros H. unfold Kafka.request. rewrite H. by destruct answer. Qed.

Lemma request_rejected {A} what (answer : Kafka.cluster -> A * Kafka.cluster) c e :
  net (length (Kafka.calls c)) = Some e ->
  Kafka.request net what answer c = (Throws e, Kafka.called what c).
Proof. intros H. unfold Kafka.request. by rewrite H. Qed.

End ClientFacts.

(** X14. [createTopicIfMissing] never throws and prints exactly one line.  When no
    call is rejected the topic exists afterwards and the other topics are as
    they were; [createTopics] is sent only when the topic was missing. *)
Theorem createTopicIfMissing_never_throws
  (net : nat -> option error) (topic : string) (c : Kafka.cluster) :
  let made := Kafka.createTopicIfMissing net topic c in
  fst made = Returns tt /\
  (exists l, Kafka.console (snd made) = Kafka.console c ++ [l]) /\
  Kafka.messages (snd made) = Kafka.messages c /\
  ((forall n, net n = None) ->
   Kafka.topics (snd made) = {[topic]} ∪ Kafka.topics c /\
   Kafka.console (snd made) = Kafka.console c ++ [Kafka.Log (Kafka.ready topic)] /\
   Kafka.calls (snd made)
   = Kafka.calls c ++
     [Kafka.AdminConnect; Kafka.ListTopics] ++
     (if decide (topic ∈ Kafka.topics c) then [] else [Kafka.CreateTopics topic 1 1]) ++
     [Kafka.AdminDisconnect]).
Proof.
  cbn zeta. unfold Kafka.createTopicIfMissing, Kafka.ktry, Kafka.kbind, Kafka.request,
    Kafka.done_by, Kafka.kret.
  cbn [Kafka.calls Kafka.called Kafka.topics].
  split; [|split; [|split]].
  - repeat (destruct (net _); cbn [Kafka.calls Kafka.called Kafka.topics fst snd];
            try done).
    all: destruct (negb _); cbn; repeat (destruct (net _); cbn; try done).
  - repeat (destruct (net _); cbn [Kafka.calls Kafka.called Kafka.topics fst snd];
            try (by eexists)).
    all: destruct (negb _); cbn; repeat (destruct (net _); cbn; try (by eexists)).
  - repeat (destruct (net _); cbn [Kafka.calls Kafka.called Kafka.topics fst snd];
            try done).
    all: destruct (negb _); cbn; repeat (destruct (net _); cbn; try done).
  - intros Hquiet. rewrite !Hquiet. cbn [fst snd].
    destruct (decide (topic ∈ Kafka.topics c)) as [Hin|Hout].
    + rewrite (bool_decide_eq_true_2 _ Hin). cbn. rewrite !Hquiet. cbn.
      rewrite <- !app_assoc. repeat split; try done.
      symmetry. by apply subseteq_union_1_L, singleton_subseteq_l.
    + rewrite (bool_decide_eq_false_2 _ Hout). cbn. rewrite ?Hquiet. cbn.
      rewrite ?Hquiet. cbn. rewrite <- !app_assoc. by repeat split.
Qed.

Lemma createTopicIfMissing_never_throws_witness :
  let c := {| Kafka.topics := ∅; Kafka.messages := []; Kafka.consumers := [];
              Kafka.consumer := None; Kafka.calls := []; Kafka.console := [] |} in
  Kafka.calls (snd (Kafka.createTopicIfMissing (fun _ => None) "orders.transformed" c))
  = [Kafka.AdminConnect; Kafka.ListTopics;
     Kafka.CreateTopics "orders.transformed" 1 1; Kafka.AdminDisconnect].
Proof.
  intros c.
  destruct (createTopicIfMissing_never_throws (fun _ => None) "orders.transformed" c)
    as (_ & _ & _ & Hquiet).
  destruct (Hquiet (fun _ => eq_refl)) as (_ & _ & Hcalls).
  rewrite Hcalls. vm_compute. reflexivity.
Defined.

(** X15. [publishOrder], by the first call that is rejected: a rejected connect or
    send leaves the topic as it was, and after a rejected send the producer
    is not disconnected; once the send is carried out the message is in the
    topic, keyed by [orderId], even when the disconnect that follows is
    rejected and [publishOrder] throws.  On [null] or [undefined] it throws
    before any call. *)
Theorem publishOrder_outcomes
  (net : nat -> option error) (JSON_stringify : value -> string) (topic : string)
  (ms : list (string * value)) (c : Kafka.cluster) :
  let n := length (Kafka.calls c) in
  let msg :=
    JObj [("orderId", member "orderId" ms);
          ("partnerId", member "partnerId" ms);
          ("status", member "status" ms);
          ("totalAmount", member "totalAmount" ms);
          ("currency", nullish_or (member "currency" ms) (JStr "USD"));
          ("isDeleted", JBool (ToBoolean (member "isDeleted" ms)))] in
  let record := (topic, member "orderId" ms, JSON_stringify msg) in
  let send := Kafka.Send topic (member "orderId" ms) (JSON_stringify msg) in
  let published := Kafka.publishOrder net JSON_stringify topic (JObj ms) c in
  match net n, net (S n), net (S (S n)) with
  | Some e, _, _ =>
      fst published = Throws e /\
      Kafka.messages (snd published) = Kafka.messages c /\
      Kafka.calls (snd published) = Kafka.calls c ++ [Kafka.ProducerConnect]
  | None, Some e, _ =>
      fst published = Throws e /\
      Kafka.messages (snd published) = Kafka.messages c /\
      Kafka.calls (snd published) = Kafka.calls c ++ [Kafka.ProducerConnect; send]
  | None, None, Some e =>
      fst published = Throws e /\
      Kafka.messages (snd published) = Kafka.messages c ++ [record] /\
      Kafka.calls (snd published)
      = Kafka.calls c ++ [Kafka.ProducerConnect; send; Kafka.ProducerDisconnect]
  | None, None, None =>
      fst published = Returns tt /\
      Kafka.messages (snd published) = Kafka.messages c ++ [record] /\
      Kafka.calls (snd published)
      = Kafka.calls c ++ [Kafka.ProducerConnect; send; Kafka.ProducerDisconnect]
  end /\
  Kafka.publishOrder net JSON_stringify topic JNull c = (Throws TypeError, c) /\
  Kafka.publishOrder net JSON_stringify topic JUndefined c = (Throws TypeError, c).
Proof.
  cbn zeta. split; [|done].
  assert (Hkey : forall a b c0 d e f,
    member "orderId"
      [("orderId", a); ("partnerId", b); ("status", c0); ("totalAmount", d);
       ("currency", e); ("isDeleted", f)] = a) by reflexivity.
  unfold Kafka.publishOrder, Kafka.kbind, Kafka.klift, Kafka.message_of, get.
  rewrite Hkey.
  destruct (net (length (Kafka.calls c))) as [e1|] eqn:H1.
  - by rewrite (request_rejected net _ _ c e1 H1).
  - rewrite (request_carried_out net _ _ c H1). cbn [fst snd Kafka.done_by id].
    assert (Hlen : forall what, length (Kafka.calls (Kafka.called what c))
                                = S (length (Kafka.calls c))).
    { intros what. cbn. rewrite length_app. cbn. lia. }
    destruct (net (S (length (Kafka.calls c)))) as [e2|] eqn:H2.
    + rewrite (request_rejected net _ _ _ e2); [|by rewrite Hlen].
      cbn. by rewrite <- app_assoc.
    + rewrite (request_carried_out net); [|by rewrite Hlen].
      cbn [fst snd Kafka.done_by].
      set (c2 := Kafka.with_message _ _).
      assert (Hlen2 : length (Kafka.calls c2) = S (S (length (Kafka.calls c)))).
      { cbn. rewrite !length_app. cbn. lia. }
      destruct (net (S (S (length (Kafka.calls c))))) as [e3|] eqn:H3.
      * rewrite (request_rejected net _ _ _ e3); [|by rewrite Hlen2].
        cbn. by rewrite <- !app_assoc.
      * rewrite (request_carried_out net); [|by rewrite Hlen2].
        cbn. by rewrite <- !app_assoc.
Qed.

(** X16. The consumer reads from the producer's message the order it would read
    from the object the producer was given: normalising twice is normalising
    once.  (Both read the members of an object; the text between them is not
    part of this statement.) *)
Theorem order_of_message (order : value) :
  match Kafka.message_of order with
  | Returns msg => order_of msg = order_of order
  | Throws e => order_of order = Throws e
  end.
Proof.
  destruct order as [| | | | | |ms]; try reflexivity.
  unfold Kafka.message_of, order_of, get.
  generalize (member "orderId" ms) (member "partnerId" ms) (member "status" ms)
             (member "totalAmount" ms) (member "currency" ms) (member "isDeleted" ms).
  intros a b c d e f.
  replace (member "orderId" _) with a by reflexivity.
  replace (member "partnerId" _) with b by reflexivity.
  replace (member "status" _) with c by reflexivity.
  replace (member "totalAmount" _) with d by reflexivity.
  replace (member "currency" _) with (nullish_or e (JStr "USD")) by reflexivity.
  replace (member "isDeleted" _) with (JBool (ToBoolean f)) by reflexivity.
  cbn [ToBoolean]. by destruct e.
Qed.

Lemma alter_last {A} (f : A -> A) (l : list A) (x : A) :
  alter f (length l) (l ++ [x]) = l ++ [f x].
Proof.
  replace (length l) with (length l + 0)%nat by lia. by rewrite alter_app_r.
Qed.

Lemma lookup_last {A} (l : list A) (x : A) : (l ++ [x]) !! length l = Some x.
Proof. by apply list_lookup_middle. Qed.

Lemma lookup_before_last {A} (l : list A) (x y : A) :
  (l ++ [x] ++ [y]) !! length l = Some x.
Proof. by apply list_lookup_middle. Qed.

Section ConsumerFacts.

Variable net : nat -> option error.
Variable topic : string.
Variable groupId : string.
Hypothesis quiet : forall n, net n = None.


Lemma startConsumer_quiet c :
  Kafka.startConsumer net topic groupId c
  = (Returns (length (Kafka.consumers c)),
     {| Kafka.topics := Kafka.topics c;
        Kafka.messages := Kafka.messages c;
        Kafka.consumers := Kafka.consumers c ++ [started topic groupId];
        Kafka.consumer := Some (length (Kafka.consumers c));
        Kafka.calls :=
          Kafka.calls c ++
          [Kafka.ConsumerConnect (length (Kafka.consumers c));
           Kafka.Subscribe (length (Kafka.consumers c)) topic true;
           Kafka.Run (length (Kafka.consumers c))];
        Kafka.console := Kafka.console c |}).
Proof.
  unfold Kafka.startConsumer, Kafka.kbind, Kafka.request, Kafka.done_by, Kafka.kret.
  rewrite !quiet. cbn. rewrite ?quiet. cbn. rewrite ?quiet. cbn.
  unfold Kafka.on_handle, Kafka.called, Kafka.with_consumer, Kafka.with_consumers.
  cbn. rewrite !alter_last, <- !app_assoc. reflexivity.
Qed.

Lemma stopConsumer_quiet c me :
  Kafka.consumer c = Some me ->
  Kafka.stopConsumer net c
  = (Returns tt,
     {| Kafka.topics := Kafka.topics c;
        Kafka.messages := Kafka.messages c;
        Kafka.consumers :=
          alter Kafka.disconnect me (alter Kafka.stop me (Kafka.consumers c));
        Kafka.consumer := None;
        Kafka.calls := Kafka.calls c ++ [Kafka.Stop me; Kafka.ConsumerDisconnect me];
        Kafka.console := Kafka.console c |}).
Proof.
  intros Hme.
  unfold Kafka.stopConsumer, Kafka.kbind, Kafka.request, Kafka.done_by.
  rewrite Hme, !quiet. cbn. rewrite ?quiet. cbn.
  unfold Kafka.on_handle, Kafka.called, Kafka.with_consumer, Kafka.with_consumers.
  cbn. by rewrite <- !app_assoc.
Qed.

End ConsumerFacts.

(** X17. Start then stop, no call rejected: the consumer is connected, subscribed
    from the beginning and running after [startConsumer]; after
    [stopConsumer] it is stopped and disconnected and the variable is [null],
    so that stopping again makes no call. *)
Theorem startConsumer_then_stopConsumer
  (net : nat -> option error) (topic groupId : string) (c : Kafka.cluster) :
  (forall n, net n = None) ->
  let me := length (Kafka.consumers c) in
  let started := Kafka.startConsumer net topic groupId c in
  let stopped := Kafka.stopConsumer net (snd started) in
  fst started = Returns me /\
  Kafka.consumer (snd started) = Some me /\
  Kafka.consumers (snd started) !! me
  = Some {| Kafka.group := groupId; Kafka.connected := true;
            Kafka.subscriptions := [topic]; Kafka.running := true |} /\
  fst stopped = Returns tt /\
  Kafka.consumer (snd stopped) = None /\
  Kafka.consumers (snd stopped) !! me
  = Some {| Kafka.group := groupId; Kafka.connected := false;
            Kafka.subscriptions := [topic]; Kafka.running := false |} /\
  Kafka.calls (snd stopped)
  = Kafka.calls c ++
    [Kafka.ConsumerConnect me; Kafka.Subscribe me topic true; Kafka.Run me;
     Kafka.Stop me; Kafka.ConsumerDisconnect me] /\
  Kafka.stopConsumer net (snd stopped) = (Returns tt, snd stopped).
Proof.
  intros Hquiet. cbn zeta.
  rewrite (startConsumer_quiet net topic groupId Hquiet c). cbn [fst snd].
  erewrite (stopConsumer_quiet net Hquiet) by reflexivity.
  cbn [fst snd Kafka.consumers Kafka.consumer Kafka.calls].
  rewrite !alter_last, !lookup_last, <- !app_assoc.
  repeat split; reflexivity.
Qed.

Lemma startConsumer_then_stopConsumer_witness :
  let c := {| Kafka.topics := {[ "orders.transformed" ]}; Kafka.messages := [];
              Kafka.consumers := []; Kafka.consumer := None; Kafka.calls := [];
              Kafka.console := [] |} in
  let started := Kafka.startConsumer (fun _ => None) "orders.transformed"
                   "write-lambda-e2e" c in
  fst started = Returns 0%nat /\
  Kafka.consumer (snd (Kafka.stopConsumer (fun _ => None) (snd started))) = None.
Proof.
  intros c started.
  destruct (startConsumer_then_stopConsumer (fun _ => None) "orders.transformed"
              "write-lambda-e2e" c (fun _ => eq_refl))
    as (Hs & _ & _ & _ & Hv & _).
  split; [exact Hs | exact Hv].
Defined.

(** X18. Starting twice: the variable holds the second consumer only, so
    [stopConsumer] stops that one and leaves the first connected and running,
    out of reach of any later [stopConsumer]. *)
Theorem second_startConsumer_orphans_first
  (net : nat -> option error) (topic groupId : string) (c : Kafka.cluster) :
  (forall n, net n = None) ->
  let me := length (Kafka.consumers c) in
  let first := Kafka.startConsumer net topic groupId c in
  let second := Kafka.startConsumer net topic groupId (snd first) in
  let stopped := Kafka.stopConsumer net (snd second) in
  fst first = Returns me /\
  fst second = Returns (S me) /\
  Kafka.consumer (snd stopped) = None /\
  Kafka.consumers (snd stopped) !! me
  = Some {| Kafka.group := groupId; Kafka.connected := true;
            Kafka.subscriptions := [topic]; Kafka.running := true |} /\
  Kafka.consumers (snd stopped) !! S me
  = Some {| Kafka.group := groupId; Kafka.connected := false;
            Kafka.subscriptions := [topic]; Kafka.running := false |} /\
  Kafka.stopConsumer net (snd stopped) = (Returns tt, snd stopped).
Proof.
  intros Hquiet. cbn zeta.
  rewrite (startConsumer_quiet net topic groupId Hquiet c). cbn [fst snd].
  rewrite (startConsumer_quiet net topic groupId Hquiet). cbn [fst snd Kafka.consumers].
  rewrite length_app, Nat.add_1_r. cbn [length].
  erewrite (stopConsumer_quiet net Hquiet) by reflexivity.
  cbn [fst snd Kafka.consumers Kafka.consumer].
  set (l := Kafka.consumers c ++ [started topic groupId]).
  assert (Hl : S (length (Kafka.consumers c)) = length l).
  { unfold l. rewrite length_app. cbn. lia. }
  rewrite Hl, !alter_last, lookup_last.
  repeat split; try reflexivity.
  rewrite lookup_app_l by lia. apply lookup_last.
Qed.

Lemma second_startConsumer_orphans_first_witness :
  let c := {| Kafka.topics := {[ "orders.transformed" ]}; Kafka.messages := [];
              Kafka.consumers := []; Kafka.consumer := None; Kafka.calls := [];
              Kafka.console := [] |} in
  let first := Kafka.startConsumer (fun _ => None) "orders.transformed"
                 "write-lambda-e2e" c in
  let second := Kafka.startConsumer (fun _ => None) "orders.transformed"
                  "write-lambda-e2e" (snd first) in
  let stopped := Kafka.stopConsumer (fun _ => None) (snd second) in
  Kafka.consumer (snd stopped) = None /\
  Kafka.running <$> Kafka.consumers (snd stopped) !! 0%nat = Some true.
Proof.
  intros c first second stopped.
  destruct (second_startConsumer_orphans_first (fun _ => None) "orders.transformed"
              "write-lambda-e2e" c (fun _ => eq_refl))
    as (_ & _ & Hv & Hfirst & _).
  split; [exact Hv|]. exact (f_equal (fmap Kafka.running) Hfirst).
Defined.

(** X19. A rejected connect: [startConsumer] throws, yet the variable already holds
    the new consumer, which never connected. *)
Theorem startConsumer_rejected_connect
  (net : nat -> option error) (topic groupId : string) (c : Kafka.cluster) (e : error) :
  net (length (Kafka.calls c)) = Some e ->
  let me := length (Kafka.consumers c) in
  let started := Kafka.startConsumer net topic groupId c in
  fst started = Throws e /\
  Kafka.consumer (snd started) = Some me /\
  Kafka.consumers (snd started) !! me = Some (Kafka.fresh groupId) /\
  Kafka.calls (snd started) = Kafka.calls c ++ [Kafka.ConsumerConnect me].
Proof.
  intros He. cbn zeta.
  unfold Kafka.startConsumer, Kafka.kbind, Kafka.request. cbn [Kafka.calls
    Kafka.with_consumer Kafka.with_consumers].
  rewrite He. cbn. by rewrite lookup_last.
Qed.

Lemma startConsumer_rejected_connect_witness :
  let c := {| Kafka.topics := ∅; Kafka.messages := []; Kafka.consumers := [];
              Kafka.consumer := None; Kafka.calls := []; Kafka.console := [] |} in
  let started := Kafka.startConsumer (fun _ => Some Samples.connection_refused)
                   "orders.transformed" "write-lambda-e2e" c in
  fst started = Throws Samples.connection_refused /\
  Kafka.consumer (snd started) = Some 0%nat.
Proof.
  intros c started.
  destruct (startConsumer_rejected_connect (fun _ => Some Samples.connection_refused)
              "orders.transformed" "write-lambda-e2e" c Samples.connection_refused
              eq_refl) as (Hs & Hv & _).
  split; [exact Hs | exact Hv].
Defined.

(** ** The readers on absent and present rows *)

(** C9, as stated, fails: the row of a malformed identifier is absent, yet
    [getOrderById] throws; and for a well-formed identifier whose row is
    absent it throws the driver's error when the statement is rejected. *)
Lemma getOrderById_absent_row_throws :
  (forall k, orders_ops Samples.empty_store !! k = None) /\
  fst (getOrderById (Samples.always None) (JStr "not-a-uuid") Samples.empty_store)
  = Throws (InvalidUUID "not-a-uuid") /\
  fst (getOrderById (Samples.always (Some Samples.connection_refused))
         (JStr "123e4567-e89b-12d3-a456-426614174000") Samples.empty_store)
  = Throws Samples.connection_refused.
Proof.
  split; [intros k; apply lookup_empty|]. split; vm_compute; reflexivity.
Qed.

(** C9, amended. For an identifier [parse] accepts: when the store executes
    the statement, [getOrderById] returns [null] if the row is absent and the
    record decoded from the row if it is present (the key as its lower-case
    hyphenated identifier, the columns as they are, [is_deleted] as a
    boolean); when the statement is rejected it throws the driver's error.
    [listByPartner], when the store executes the statement, returns the
    empty list if no row is the partner's, and in any case the records
    decoded from exactly the partner's rows. *)
Theorem readers_on_absence_and_presence
  (env : nat -> circumstances) (sql_eq : value -> value -> bool)
  (orderId : string) (k : Buffer) (partnerId : value) (w : world) :
  parse orderId = Returns k ->
  let decoded (kr : Buffer * Row.t) :=
    {| OrderRecord.orderId := stringify (fst kr);
       OrderRecord.partnerId := Row.partner_id (snd kr);
       OrderRecord.status := Row.status (snd kr);
       OrderRecord.totalAmount := Row.total_amount (snd kr);
       OrderRecord.currency := Row.currency (snd kr);
       OrderRecord.createdTs := Row.created_ts (snd kr);
       OrderRecord.updatedTs := Row.updated_ts (snd kr);
       OrderRecord.isDeleted := negb (Row.is_deleted (snd kr) =? 0)%Z |} in
  match fault (env (issued w)) with
  | Some e =>
      fst (getOrderById env (JStr orderId) w) = Throws e /\
      fst (listByPartner env sql_eq partnerId w) = Throws e
  | None =>
      (orders_ops w !! k = None ->
       fst (getOrderById env (JStr orderId) w) = Returns None) /\
      (forall row, orders_ops w !! k = Some row ->
       fst (getOrderById env (JStr orderId) w) = Returns (Some (decoded (k, row))) /\
       canonical_uuid (stringify k) = true /\
       remove_hyphens (stringify k) = toLowerCase (remove_hyphens orderId)) /\
      ((forall k' row, orders_ops w !! k' = Some row ->
          sql_eq (Row.partner_id row) partnerId = false) ->
       fst (listByPartner env sql_eq partnerId w) = Returns []) /\
      (exists rows,
         fst (listByPartner env sql_eq partnerId w) = Returns (map decoded rows) /\
         forall k' row,
           (k', row) ∈ rows <->
           orders_ops w !! k' = Some row /\
           sql_eq (Row.partner_id row) partnerId = true)
  end.
Proof.
  intros Hk decoded.
  destruct (fault (env (issued w))) as [e|] eqn:Hf.
  - unfold getOrderById, listByPartner, bind, lift, query. cbn [parse_value].
    by rewrite Hk, Hf.
  - assert (Hget : fst (getOrderById env (JStr orderId) w) =
                   Returns (match orders_ops w !! k with
                            | Some row => Some (decoded (k, row))
                            | None => None
                            end)).
    { unfold getOrderById, bind, lift, query, select_by_order_id. cbn [parse_value].
      rewrite Hk, Hf. by destruct (orders_ops w !! k). }
    assert (Hlist : exists rows,
       fst (listByPartner env sql_eq partnerId w) = Returns (map decoded rows) /\
       forall k' row,
         (k', row) ∈ rows <->
         orders_ops w !! k' = Some row /\ sql_eq (Row.partner_id row) partnerId = true).
    { eexists. split.
      - unfold listByPartner, bind, query, select_by_partner_id, ret. by rewrite Hf.
      - intros k' row.
        rewrite order_by_created_ts_desc_perm, list_elem_of_filter, elem_of_map_to_list.
        cbn [snd]. tauto. }
    split; [by intros Hnone; rewrite Hget, Hnone|].
    split.
    { intros row Hrow. rewrite Hget, Hrow. split; [done|].
      split.
      - by apply stringify_canonical_16, (parse_length orderId).
      - unfold parse in Hk.
        destruct (test_hex32 (toLowerCase (remove_hyphens orderId))) eqn:Ht; [|done].
        cbn [negb] in Hk. injection Hk as <-.
        rewrite remove_hyphens_stringify. by destruct (stringify_from_hex _ Ht). }
    split; [|exact Hlist].
    intros Hnone. destruct Hlist as (rows & -> & Hrows).
    destruct rows as [|[k' row] rows]; [done|].
    destruct (proj1 (Hrows k' row)) as [Hrow Hp]; [by left|].
    by rewrite (Hnone k' row Hrow) in Hp.
Qed.

Lemma readers_on_absence_and_presence_witness :
  let stored :=
    snd (upsertOrder (Samples.always None) Samples.kept_as_bound
           Samples.placed_order Samples.empty_store) in
  fst (getOrderById (Samples.always None)
         (JStr "00000000-0000-0000-0000-000000000000") stored) = Returns None /\
  fst (listByPartner (Samples.always None) Samples.same_string (JStr "p-2002") stored)
  = Returns [] /\
  exists found,
    fst (getOrderById (Samples.always None)
           (JStr "123E4567-E89B-12D3-A456-426614174000") stored) = Returns (Some found) /\
    OrderRecord.orderId found = "123e4567-e89b-12d3-a456-426614174000" /\
    OrderRecord.status found = JStr "PLACED" /\
    OrderRecord.isDeleted found = false.
Proof.
  intros stored.
  pose (key := Buffer_from_hex "123e4567e89b12d3a456426614174000").
  assert (Hf : fault (Samples.always None (issued stored)) = None)
    by (vm_compute; reflexivity).
  assert (Hzero : parse "00000000-0000-0000-0000-000000000000"
                  = Returns (Buffer_from_hex "00000000000000000000000000000000"))
    by (vm_compute; reflexivity).
  assert (Hkey : parse "123E4567-E89B-12D3-A456-426614174000" = Returns key)
    by (vm_compute; reflexivity).
  pose proof (readers_on_absence_and_presence (Samples.always None) Samples.same_string
                _ _ (JStr "p-2002") stored Hzero) as Hz.
  pose proof (readers_on_absence_and_presence (Samples.always None) Samples.same_string
                _ _ (JStr "p-2002") stored Hkey) as Hp.
  cbn zeta in Hz, Hp. rewrite Hf in Hz, Hp.
  destruct Hz as (Habsent & _ & Hnone & _). destruct Hp as (_ & Hpresent & _).
  split; [apply Habsent; vm_compute; reflexivity|].
  split.
  - apply Hnone. intros k' row Hrow.
    destruct (decide (k' = key)) as [->|Hne].
    + assert (Hrow' : orders_ops stored !! key = Some row) by exact Hrow.
      vm_compute in Hrow'. injection Hrow' as <-. reflexivity.
    + assert (Hempty : orders_ops stored !! k' = (∅ : gmap Buffer Row.t) !! k').
      { apply (upsertOrder_written_elsewhere (Samples.always None) Samples.kept_as_bound
                 Samples.placed_order key Samples.empty_store); [vm_compute|..]; done. }
      rewrite Hempty, lookup_empty in Hrow. discriminate Hrow.
  - eexists. split; [apply Hpresent; vm_compute; reflexivity|].
    repeat split; vm_compute; reflexivity.
Defined.
